(** * data_process.prepare: splitting and averaging of raw sensor tables

    A shallow embedding of [data_process/prepare.py].  The module reads raw
    sonic-anemometer and ammonia-analyzer files into one time-indexed table,
    then either cuts the table into one file per averaging window
    ([SonicData]) or shifts and averages it ([AmmoniaData]).

    The pandas operations the code calls are modelled in [Module Pandas]
    after their documented behaviour; the functions of [prepare.py] are
    embedded on top of it under their own names. *)

From Stdlib Require Import ZArith QArith Lia Ascii String Sorted.
From Equations Require Import Equations.
From stdpp Require Import base option list gmap strings.

#[local] Open Scope Z_scope.

(** ** Exceptions and results *)

(** The Python exceptions that the modelled code can meet.  All of them are
    subclasses of [Exception], so every [except Exception] clause of the
    source catches each of them. *)
Inductive exn : Type :=
| KeyError (label : Z)
| ZeroDivisionError
| ValueError
| IndexError
| FileNotFoundError (path : string)
| OSError (path : string).

Inductive result (A : Type) : Type :=
| Ok (a : A)
| Raise (e : exn).
Arguments Ok {A} a.
Arguments Raise {A} e.

Definition bind {A B} (r : result A) (k : A -> result B) : result B :=
  match r with
  | Ok a => k a
  | Raise e => Raise e
  end.

Notation "'let!' x ':=' r 'in' k" := (bind r (fun x => k))
  (at level 10, x name, r at level 100, k at level 200).

(** ** Python strings and [datetime] values *)

Module Py.

(** [s.replace(old, new)] for one-character [old] and [new]. *)
Fixpoint replace (old new : ascii) (s : string) : string :=
  match s with
  | EmptyString => EmptyString
  | String c s' => String (if Ascii.eqb c old then new else c) (replace old new s')
  end.

(** [s[:-k]]: all but the last [k] characters, nothing when [s] is shorter. *)
Definition slice_to_neg (k : nat) (s : string) : string :=
  substring 0 (String.length s - k) s.

Definition digit (d : Z) : ascii := ascii_of_nat (48 + Z.to_nat d).

(** ['%0wd' % n] for [0 <= n < 10 ^ w], the only use the [datetime] fields
    make of it. *)
Fixpoint zfill (w : nat) (n : Z) : string :=
  match w with
  | O => EmptyString
  | S w' => zfill w' (n / 10) +:+ String (digit (n mod 10)) EmptyString
  end.

Record date : Type := mkDate { year : Z; month : Z; day : Z }.

Record time : Type := mkTime {
  hour : Z; minute : Z; second : Z; microsecond : Z
}.

(** [str(d)] is [d.isoformat()]: [YYYY-MM-DD]. *)
Definition str_date (d : date) : string :=
  zfill 4 (year d) +:+ "-" +:+ zfill 2 (month d) +:+ "-" +:+ zfill 2 (day d).

(** [str(t)] is [t.isoformat()]: [HH:MM:SS], followed by [.ffffff] when the
    microsecond field is not zero. *)
Definition str_time (t : time) : string :=
  zfill 2 (hour t) +:+ ":" +:+ zfill 2 (minute t) +:+ ":" +:+ zfill 2 (second t)
  +:+ (if microsecond t =? 0 then "" else "." +:+ zfill 6 (microsecond t)).

(** The proleptic Gregorian date of a day number counted from 1970-01-01. *)
Definition civil_from_days (z : Z) : date :=
  let z := z + 719468 in
  let era := z / 146097 in
  let doe := z - era * 146097 in
  let yoe := (doe - doe / 1460 + doe / 36524 - doe / 146096) / 365 in
  let doy := doe - (365 * yoe + yoe / 4 - yoe / 100) in
  let mp := (5 * doy + 2) / 153 in
  let d := doy - (153 * mp + 2) / 5 + 1 in
  let m := if mp <? 10 then mp + 3 else mp - 9 in
  mkDate (if m <=? 2 then yoe + era * 400 + 1 else yoe + era * 400) m d.

End Py.

(** ** The pandas operations used by the module *)

Module Pandas.

(** A [Timestamp] is its [value]: nanoseconds since 1970-01-01T00:00. *)
Definition Timestamp := Z.

(** A fixed-length frequency (a pandas [Tick] such as ['30min'] or ['H']) is
    its length in nanoseconds. *)
Definition Tick := Z.

Definition NS_PER_SECOND : Z := 1000000000.
Definition NS_PER_MINUTE : Z := 60 * NS_PER_SECOND.
Definition NS_PER_HOUR : Z := 60 * NS_PER_MINUTE.
Definition NS_PER_DAY : Z := 24 * NS_PER_HOUR.

(** [Timestamp.min.value] and [Timestamp.max.value]: the int64 range without
    the value reserved for [NaT]. *)
Definition TS_MIN : Z := - 2 ^ 63 + 1.
Definition TS_MAX : Z := 2 ^ 63 - 1.

(** [Timestamp.date()] and [Timestamp.time()].  The [time] has microsecond
    resolution: the nanoseconds below a microsecond are dropped. *)
Definition date (t : Timestamp) : Py.date := Py.civil_from_days (t / NS_PER_DAY).

Definition time (t : Timestamp) : Py.time :=
  let ns := t mod NS_PER_DAY in
  Py.mkTime (ns / NS_PER_HOUR) (ns / NS_PER_MINUTE mod 60)
    (ns / NS_PER_SECOND mod 60) (ns / 1000 mod 1000000).

(** A [DatetimeIndex] that carries a frequency, as [pd.date_range] builds. *)
Record DatetimeIndex : Type := mkRange {
  values : list Timestamp;
  freq : Tick
}.

Definition arange (start : Timestamp) (step : Tick) (n : nat) : list Timestamp :=
  List.map (fun k => start + Z.of_nat k * step) (seq 0 n).

(** [pd.date_range(start, end, freq=freq, closed=...)] for a positive tick:
    the stamps [start, start + freq, ...] up to and including [end_]; with
    [closed='left'] a last stamp equal to [end_] is then removed. *)
Definition date_range (start end_ : Timestamp) (f : Tick) (closed_left : bool)
  : DatetimeIndex :=
  let n := if end_ <? start then 0%nat else Z.to_nat ((end_ - start) / f + 1) in
  let vs := arange start f n in
  let vs' :=
    match List.last (List.map Some vs) None with
    | Some l => if closed_left && (l =? end_) then removelast vs else vs
    | None => vs
    end in
  mkRange vs' f.

(** The stamps of an index follow each other at distance [f]. *)
Fixpoint evenly_spaced (f : Tick) (l : list Timestamp) : bool :=
  match l with
  | [] => true
  | x :: tl =>
      match tl with
      | [] => true
      | y :: _ => (y =? x + f) && evenly_spaced f tl
      end
  end.

(** The invariant of a [DatetimeIndex] with a tick frequency: the frequency
    is positive and the stamps conform to it. *)
Definition regular (r : DatetimeIndex) : bool :=
  (0 <? freq r) && evenly_spaced (freq r) (values r).

(** A cell of a table: a number, or [NaN] (here [None]).  Numbers are exact
    rationals; the rounding of float64 arithmetic is outside the model. *)
Definition Cell := option Q.

(** A row: its index label and one cell per column. *)
Definition Row : Type := Timestamp * list Cell.

(** A [DataFrame] whose index holds timestamps. *)
Record DataFrame : Type := mkFrame {
  index_name : string;
  columns : list string;
  rows : list Row
}.

Definition index (df : DataFrame) : list Timestamp := List.map fst (rows df).

Fixpoint is_monotonic_increasing (ix : list Timestamp) : bool :=
  match ix with
  | [] => true
  | x :: tl =>
      match tl with
      | [] => true
      | y :: _ => (x <=? y) && is_monotonic_increasing tl
      end
  end.

Fixpoint is_monotonic_decreasing (ix : list Timestamp) : bool :=
  match ix with
  | [] => true
  | x :: tl =>
      match tl with
      | [] => true
      | y :: _ => (y <=? x) && is_monotonic_decreasing tl
      end
  end.

Definition count (p : Timestamp -> bool) (ix : list Timestamp) : nat :=
  length (List.filter p ix).

(** The positions at which [label] occurs in the index. *)
Definition get_loc (ix : list Timestamp) (label : Timestamp) : list nat :=
  List.map fst
    (List.filter (fun p => snd p =? label) (combine (seq 0 (length ix)) ix)).

Fixpoint contiguous (ps : list nat) : bool :=
  match ps with
  | [] => true
  | p :: tl =>
      match tl with
      | [] => true
      | q :: _ => (q =? S p)%nat && contiguous tl
      end
  end.

Inductive side : Type := LeftSide | RightSide.

(** [Index.get_slice_bound]: the position at which a label slice starts
    ([LeftSide]) or stops ([RightSide]).  On a monotonic index the bound is
    found by binary search whether or not the label occurs; on any other
    index the label has to occur, in one contiguous run, or [KeyError] is
    raised. *)
Definition get_slice_bound (ix : list Timestamp) (label : Timestamp) (s : side)
  : result nat :=
  if is_monotonic_increasing ix then
    Ok (match s with
        | LeftSide => count (fun t => t <? label) ix
        | RightSide => count (fun t => t <=? label) ix
        end)
  else if is_monotonic_decreasing ix then
    Ok (match s with
        | LeftSide => count (fun t => label <? t) ix
        | RightSide => count (fun t => label <=? t) ix
        end)
  else
    match get_loc ix label with
    | [] => Raise (KeyError label)
    | p :: ps =>
        if contiguous (p :: ps) then
          Ok (match s with
              | LeftSide => p
              | RightSide => S (List.last ps p)
              end)
        else Raise (KeyError label)
    end.

(** [df[start:stop]] with timestamp bounds: a label slice, which takes both
    end points, [stop] included. *)
Definition getitem_slice (df : DataFrame) (start stop : Timestamp)
  : result DataFrame :=
  let! i := get_slice_bound (index df) start LeftSide in
  let! j := get_slice_bound (index df) stop RightSide in
  Ok (mkFrame (index_name df) (columns df) (take (j - i) (drop i (rows df)))).

(** *** Files and the console *)

(** A written CSV file: the header line and the records, each with its index
    label when the index is written. *)
Record Csv : Type := mkCsv {
  header : list string;
  records : list (option Timestamp * list Cell)
}.

Inductive line : Type :=
| Text (s : string)
| ExnLine (e : exn)
| ExnAtLine (e : exn) (start_time : Timestamp).

(** The part of the machine the module acts on: the files it has written, by
    path, and the lines it has printed, oldest first. *)
Record World : Type := mkWorld {
  files : gmap string Csv;
  stdout : list line
}.

Definition print (l : line) (w : World) : World :=
  mkWorld (files w) (stdout w ++ [l]).

(** [df.to_csv(path, index=...)].  Whether a path can be written is given by
    [write_error]: [Some e] when opening it raises [e].  A path written
    twice keeps the later content. *)
Definition to_csv (write_error : string -> option exn) (df : DataFrame)
    (path : string) (with_index : bool) (w : World) : result World :=
  match write_error path with
  | Some e => Raise e
  | None =>
      let csv :=
        if with_index then
          mkCsv (index_name df :: columns df)
                (List.map (fun r => (Some (fst r), snd r)) (rows df))
        else
          mkCsv (columns df) (List.map (fun r => (None, snd r)) (rows df)) in
      Ok (mkWorld (<[path := csv]> (files w)) (stdout w))
  end.

(** *** Reading, concatenating, shifting and resampling *)

(** What [pd.read_csv] returns for a raw file whose first column holds the
    time stamps: the column names, and per record the stamp and the cells of
    the other columns. *)
Record Parsed : Type := mkParsed {
  parsed_columns : list string;
  parsed_records : list Row
}.

(** [datum.set_index(datum.columns[0], inplace=True)]. *)
Definition set_index_first (datum : Parsed) : result DataFrame :=
  match parsed_columns datum with
  | [] => Raise IndexError
  | c :: cs => Ok (mkFrame c cs (parsed_records datum))
  end.

(** The ordered union of the column names of several frames. *)
Definition union_columns (frames : list DataFrame) : list string :=
  fold_left (fun acc df =>
               acc ++ List.filter (fun c => negb (existsb (String.eqb c) acc))
                                  (columns df))
            frames [].

Fixpoint position (c : string) (cs : list string) : option nat :=
  match cs with
  | [] => None
  | c' :: tl => if String.eqb c c' then Some 0%nat else option_map S (position c tl)
  end.

(** A row of [df] laid out over the columns [cs]; a column that [df] does not
    have is filled with [NaN]. *)
Definition reindex_row (cs : list string) (df : DataFrame) (r : Row) : Row :=
  (fst r,
   List.map (fun c => match position c (columns df) with
                      | Some j => nth j (snd r) None
                      | None => None
                      end) cs).

(** [pd.concat(frames)]: the rows of the frames one after the other, in the
    order of the list; nothing is sorted and nothing is dropped. *)
Definition concat (frames : list DataFrame) : result DataFrame :=
  match frames with
  | [] => Raise ValueError
  | df0 :: _ =>
      let cs := union_columns frames in
      let name :=
        if forallb (fun df => String.eqb (index_name df) (index_name df0)) frames
        then index_name df0 else EmptyString in
      Ok (mkFrame name cs
            (flat_map (fun df => List.map (reindex_row cs df) (rows df)) frames))
  end.

(** [df.tshift(periods, freq)]: every index label moved by [periods * freq]. *)
Definition tshift (periods : Z) (f : Tick) (df : DataFrame) : DataFrame :=
  mkFrame (index_name df) (columns df)
    (List.map (fun r => (fst r + periods * f, snd r)) (rows df)).

(** The mean of one column within one group, as [group_mean] computes it:
    [NaN] cells are passed over, the others are summed and counted. *)
Definition group_mean (cells : list Cell) : Cell :=
  let '(sumx, nobs) :=
    fold_left (fun acc c =>
                 match c with
                 | Some v => (Qplus (fst acc) v, S (snd acc))
                 | None => acc
                 end) cells (0%Q, 0%nat) in
  match nobs with
  | O => None
  | S _ => Some (Qdiv sumx (inject_Z (Z.of_nat nobs)))
  end.

Definition minimum (x : Z) (l : list Z) : Z := fold_left Z.min l x.
Definition maximum (x : Z) (l : list Z) : Z := fold_left Z.max l x.

(** The labels of the bins of [df.resample(f)] for a tick [f]: bins are
    closed on the left and labelled by their left edge; the edges are
    counted from midnight of the first stamp's day and run up to the bin
    that holds the last stamp. *)
Definition bin_labels (ix : list Timestamp) (f : Tick) : list Timestamp :=
  match ix with
  | [] => []
  | t :: tl =>
      let first := minimum t tl in
      let last := maximum t tl in
      let start_day := first / NS_PER_DAY * NS_PER_DAY in
      let fresult := first - (first - start_day) mod f in
      let lresult := last - (last - start_day) mod f + f in
      let binner := values (date_range fresult lresult f false) in
      take (List.length binner - 1) binner
  end.

(** [df.resample(f).mean()]. *)
Definition resample_mean (df : DataFrame) (f : Tick) : DataFrame :=
  mkFrame (index_name df) (columns df)
    (List.map
       (fun b =>
          let group :=
            List.filter (fun r => (b <=? fst r) && (fst r <? b + f)) (rows df) in
          (b, List.map (fun j => group_mean (List.map (fun r => nth j (snd r) None) group))
                (seq 0 (List.length (columns df)))))
       (bin_labels (index df) f)).

End Pandas.

(** ** The worker pool: [multiprocessing.Pool] *)

Module Pool.

(** The result object of [map_async]: one slot per task, filled when the
    task's worker returns, and the first error that a worker sent back. *)
Record MapResult (B : Type) : Type := mkMapResult {
  value : list (option B);
  failure : option exn
}.
Arguments mkMapResult {B} value failure.
Arguments value {B} m.
Arguments failure {B} m.

(** A worker returns the outcome of task [i]. *)
Definition _set {B} (i : nat) (r : result B) (m : MapResult B) : MapResult B :=
  match failure m, r with
  | Some _, _ => m
  | None, Ok b => mkMapResult (<[i := Some b]> (value m)) None
  | None, Raise e => mkMapResult (value m) (Some e)
  end.

(** [p.map_async(func, iterable)] when the workers return their tasks in the
    order [completion] (task numbers, first to last). *)
Definition map_async {A B} (func : A -> result B) (iterable : list A)
    (completion : list nat) : MapResult B :=
  fold_left (fun m i => match iterable !! i with
                        | Some x => _set i (func x) m
                        | None => m
                        end)
            completion (mkMapResult (replicate (List.length iterable) None) None).

(** [result.get()]: the list of values in the order of the tasks, or the
    error of the first task that failed; [None] while a task is still out. *)
Definition get {B} (m : MapResult B) : option (result (list B)) :=
  match failure m with
  | Some e => Some (Raise e)
  | None => option_map Ok (mapM id (value m))
  end.

End Pool.

(** ** Reading and merging: [class RawData] *)

Module RawData.
Import Pandas.

Section Reader.

(** The [data_format] dictionary of a data source, passed on to [read_csv]. *)
Variable Format : Type.

(** The content of the raw directory as [pd.read_csv] sees it. *)
Variable read_csv : string -> Format -> result Parsed.

Record DataFile : Type := mkDataFile {
  path : string;
  data_format : Format
}.

Definition _read_data_file (data_file : DataFile) : result DataFrame :=
  let! datum := read_csv (path data_file) (data_format data_file) in
  set_index_first datum.

(** [_merge_data] with the workers returning in the order [completion]. *)
Definition _merge_data (data_files : list DataFile) (completion : list nat)
  : option (result DataFrame) :=
  let datum_async_list := Pool.map_async _read_data_file data_files completion in
  option_map (fun r => let! frames := r in concat frames)
    (Pool.get datum_async_list).

End Reader.

End RawData.

(** ** The anemometer pipeline: [class SonicData] *)

Module SonicData.
Import Pandas.

(** What one turn of the generator's loop leaves behind: a yielded
    [(data[start_time:end_time], data_range_fraction)] pair, or the line
    printed by the [except Exception] clause around the [yield]. *)
Inductive fraction_event : Type :=
| Yielded (data_fraction : DataFrame) (data_range_fraction : DatetimeIndex)
| Printed (e : exn).

Definition inspect {A} (a : A) : {b : A | a = b} := exist _ a eq_refl.

(** The [while 1] loop of [_make_data_fractions] over the range iterator:
    [islice] takes the next [fraction_size] stamps and leaves the rest. *)
Equations? fractions_loop (data : DataFrame) (f : Tick) (fraction_size : nat)
    (data_range_iter : list Timestamp) : list fraction_event
    by wf (List.length data_range_iter) lt :=
  fractions_loop data f fraction_size data_range_iter
    with inspect (take fraction_size data_range_iter) => {
    | exist _ [] _ := [];
    | exist _ (first :: tl) _ :=
        let start_time := first in
        let end_time := List.last tl first + f in
        let data_range_fraction := date_range first (List.last tl first) f false in
        match getitem_slice data start_time end_time with
        | Ok data_fraction => Yielded data_fraction data_range_fraction
        | Raise e => Printed e
        end :: fractions_loop data f fraction_size (drop fraction_size data_range_iter) }.
Proof.
  destruct fraction_size as [|n]; [discriminate|].
  destruct data_range_iter as [|x xs]; [discriminate|].
  cbn [drop List.length]. pose proof (length_drop xs n). lia.
Qed.

(** The [divmod] and the rounding up at the head of [_make_data_fractions]:
    the number of stamps per fraction, for a range of [len] stamps. *)
Definition fraction_size (len cores : Z) : Z :=
  let '(fraction_size, extra) := (len / (cores * 8), len mod (cores * 8)) in
  if extra =? 0 then fraction_size else fraction_size + 1.

(** [_make_data_fractions(data, data_range, cores)], run to exhaustion.
    [divmod] raises on a zero divisor and [islice] on a negative count; both
    reach the caller at the first [next]. *)
Definition _make_data_fractions (data : DataFrame) (data_range : DatetimeIndex)
    (cores : Z) : result (list fraction_event) :=
  if cores * 8 =? 0 then Raise ZeroDivisionError else
  let fraction_size :=
    fraction_size (Z.of_nat (List.length (values data_range))) cores in
  if fraction_size <? 0 then Raise ValueError else
  Ok (fractions_loop data (freq data_range) (Z.to_nat fraction_size)
        (values data_range)).

(** The time sub-ranges and the table slices that the generator yields. *)
Definition yielded_ranges (events : list fraction_event) : list DatetimeIndex :=
  flat_map (fun ev => match ev with
                      | Yielded _ r => [r]
                      | Printed _ => []
                      end) events.

Definition yielded (events : list fraction_event)
  : list (DataFrame * DatetimeIndex) :=
  flat_map (fun ev => match ev with
                      | Yielded d r => [(d, r)]
                      | Printed _ => []
                      end) events.

Section Splitter.

(** The paths that cannot be written, with the error that opening them raises. *)
Variable write_error : string -> option exn.

(** [yyyy-mm-dd_HH-MM] for EddyPro input. *)
Definition part_name (start_time : Timestamp) : string :=
  Py.str_date (date start_time) +:+ "_" +:+
  Py.slice_to_neg 3 (Py.replace ":" "-" (Py.str_time (time start_time))).

Definition file_path (split_path : string) (start_time : Timestamp) : string :=
  split_path +:+ "\" +:+ part_name start_time +:+ ".csv".

(** The body of the [try] for one window. *)
Definition write_window (data_fraction : DataFrame) (f : Tick)
    (split_path : string) (start_time : Timestamp) (w : World) : result World :=
  let end_time := start_time + f in
  let! data_part := getitem_slice data_fraction start_time end_time in
  to_csv write_error data_part (file_path split_path start_time) false w.

(** One window with its [except Exception] clause. *)
Definition split_window (data_fraction : DataFrame) (f : Tick)
    (split_path : string) (start_time : Timestamp) (w : World) : World :=
  match write_window data_fraction f split_path start_time w with
  | Ok w' => w'
  | Raise e => print (ExnAtLine e start_time) w
  end.

(** The [while i < len(data_range_fraction)] loop, from index [i] on. *)
Equations? split_loop (data_fraction : DataFrame)
    (data_range_fraction : DatetimeIndex) (split_path : string) (i : nat)
    (w : World) : result bool * World
    by wf (List.length (values data_range_fraction) - i)%nat lt :=
  split_loop data_fraction data_range_fraction split_path i w
    with inspect (i <? List.length (values data_range_fraction))%nat => {
    | exist _ false _ := (Ok true, w);
    | exist _ true _ with inspect (values data_range_fraction !! i) => {
      | exist _ None _ := (Raise IndexError, w);
      | exist _ (Some start_time) _ :=
          split_loop data_fraction data_range_fraction split_path (S i)
            (split_window data_fraction (freq data_range_fraction)
               split_path start_time w) } }.
Proof. apply Nat.ltb_lt in e. lia. Qed.

Definition _split_data_fraction (data_fraction : DataFrame)
    (data_range_fraction : DatetimeIndex) (split_path : string) (w : World)
  : result bool * World :=
  split_loop data_fraction data_range_fraction split_path 0 w.

(** The split phase of [prepare_data]: every yielded fraction is handed to
    [_split_data_fraction]; a line printed by the generator goes to the
    console.  The fractions act on disjoint state except for the files they
    write, and are taken here in the order of the generator.  The timer and
    the progress display are outside the model, and so is the directory
    listing: [os.makedirs] leaves no trace here, and a path that cannot be
    written is one on which [write_error] answers. *)
Fixpoint dispatch (events : list fraction_event) (split_path : string)
    (w : World) : list (result bool) * World :=
  match events with
  | [] => ([], w)
  | Printed e :: tl => dispatch tl split_path (print (ExnLine e) w)
  | Yielded data_fraction data_range_fraction :: tl =>
      let '(r, w1) := _split_data_fraction data_fraction data_range_fraction
                        split_path w in
      let '(rs, w2) := dispatch tl split_path w1 in
      (r :: rs, w2)
  end.

Definition prepare_data (data : DataFrame) (data_range : DatetimeIndex)
    (cores : Z) (prep_path : string) (w : World)
  : result (list (result bool) * World) :=
  let split_path := prep_path +:+ "\Split" in
  let! data_and_range_fractions := _make_data_fractions data data_range cores in
  Ok (dispatch data_and_range_fractions split_path w).

End Splitter.

End SonicData.


(** ** The ammonia pipeline: [class AmmoniaData] *)

Module AmmoniaData.
Import Pandas.

Definition prepare_data (write_error : string -> option exn) (data : DataFrame)
    (data_range : DatetimeIndex) (prep_path : string) (w : World)
  : result World :=
  let w := print (Text ">>> Averaging data") w in
  let data := tshift 8 NS_PER_HOUR data in
  let data_prep := resample_mean data (freq data_range) in
  let! w := to_csv write_error data_prep (prep_path +:+ "\data_averaged.csv") true w in
  Ok (print (Text "### Averaging data completed.") w).

End AmmoniaData.

(** ** The project: [class Project] *)

Module Project.
Import Pandas.

(** The values that the configuration dictionaries hold: the strings,
    numbers and ranges that the code itself stores, and whatever else the
    configuration file gave, kept as its JSON text. *)
Inductive ConfigValue : Type :=
| VStr (s : string)
| VInt (n : Z)
| VRange (r : DatetimeIndex)
| VJson (raw : string).

(** The fields of the dataclass.  [begin_time] and [end_time] are the stamps
    that pandas reads from the two strings, [freq] the tick of the frequency
    string; the two configurations are the dictionaries that are later
    passed on to [SonicData] and [AmmoniaData]. *)
Record t : Type := mk {
  name : string;
  path : string;
  begin_time : Timestamp;
  end_time : Timestamp;
  freq : Tick;
  sonic_config : gmap string ConfigValue;
  ammonia_config : gmap string ConfigValue;
  cores : Z
}.

(** [__post_init__], on a machine where [os.cpu_count()] is [cpu_count]. *)
Definition __post_init__ (cpu_count : Z) (self : t) : t :=
  let data_range := date_range (begin_time self) (end_time self) (freq self) true in
  let cores := if cores self =? 0 then cpu_count else cores self in
  let set_keys (config : gmap string ConfigValue) :=
    <["cores" := VInt cores]>
      (<["data_range" := VRange data_range]>
         (<["project_path" := VStr (path self)]> config)) in
  mk (name self) (path self) (begin_time self) (end_time self) (freq self)
     (set_keys (sonic_config self)) (set_keys (ammonia_config self)) cores.

End Project.

(** ** Vocabulary of the statements and example data *)

(** The least number of groups of [b] that hold [a] items. *)
Definition ceil_div (a b : Z) : Z := (a + b - 1) / b.

(** [YYYY-MM-DD_HH-MM] of a stamp: its date, and its hour and minute on the
    24-hour clock, each field in decimal with leading zeros. *)
Definition minute_name (t : Pandas.Timestamp) : string :=
  Py.zfill 4 (Py.year (Pandas.date t)) +:+ "-" +:+
  Py.zfill 2 (Py.month (Pandas.date t)) +:+ "-" +:+
  Py.zfill 2 (Py.day (Pandas.date t)) +:+ "_" +:+
  Py.zfill 2 (Py.hour (Pandas.time t)) +:+ "-" +:+
  Py.zfill 2 (Py.minute (Pandas.time t)).

(** The rows of the half-open window that starts at [s] and lasts [f]. *)
Definition in_window (s : Pandas.Timestamp) (f : Pandas.Tick) (r : Pandas.Row)
  : bool :=
  (s <=? fst r) && (fst r <? s + f).

Section Vocabulary.
Import Pandas.

(** The rows whose label lies in the closed interval from [s] to [e]. *)
Definition between (s e : Timestamp) (r : Row) : bool :=
  (s <=? fst r) && (fst r <=? e).

(** The event of one turn of the generator's loop, for the fraction
    [first :: tl]. *)
Definition fraction_event_of (data : DataFrame) (f : Tick) (first : Timestamp)
    (tl : list Timestamp) : SonicData.fraction_event :=
  match getitem_slice data first (List.last tl first + f) with
  | Ok data_fraction =>
      SonicData.Yielded data_fraction (date_range first (List.last tl first) f false)
  | Raise e => SonicData.Printed e
  end.

(** The error, if any, that the [try] body of a window runs into.  It depends
    on the table, the window and the path only, not on what was written or
    printed before. *)
Definition window_error (write_error : string -> option exn)
    (data_fraction : DataFrame) (f : Tick)
    (split_path : string) (start_time : Timestamp) : option exn :=
  match getitem_slice data_fraction start_time (start_time + f) with
  | Raise e => Some e
  | Ok _ => write_error (SonicData.file_path split_path start_time)
  end.

(** The lines that the windows in [starts] add to the console. *)
Definition window_log (write_error : string -> option exn)
    (data_fraction : DataFrame) (f : Tick)
    (split_path : string) (starts : list Timestamp) : list line :=
  flat_map (fun t => match window_error write_error data_fraction f split_path t with
                     | Some e => [ExnAtLine e t]
                     | None => []
                     end) starts.

(** The file that [to_csv(path, index=False)] leaves for a set of rows. *)
Definition csv_of (cols : list string) (rs : list Row) : Csv :=
  mkCsv cols (List.map (fun r => (None, snd r)) rs).

(** The fraction that the generator yields for a single stamp [t] of a
    table in time order. *)
Definition single (data : DataFrame) (f : Tick) (t : Timestamp)
  : DataFrame * DatetimeIndex :=
  (mkFrame (index_name data) (columns data)
     (List.filter (between t (t + f)) (rows data)),
   mkRange [t] f).

(** The numbers among some cells, the [NaN] cells left out. *)
Definition numbers (cells : list Cell) : list Q :=
  flat_map (fun c => match c with Some v => [v] | None => [] end) cells.

(** The sum of some numbers. *)
Definition total (vs : list Q) : Q := fold_right Qplus 0%Q vs.

(** The arithmetic mean of some numbers; of no number it is undefined. *)
Definition arith_mean (vs : list Q) : option Q :=
  match vs with
  | [] => None
  | _ :: _ => Some (total vs / inject_Z (Z.of_nat (List.length vs)))%Q
  end.

(** Two cells hold the same number, or both hold [NaN]. *)
Definition cell_eq (c d : Cell) : Prop :=
  match c, d with
  | Some x, Some y => Qeq x y
  | None, None => True
  | _, _ => False
  end.

(** The rows whose stamp, moved by [shift], lies in the half-open bucket
    that starts at [b] and lasts [f]. *)
Definition bucket (shift : Z) (b : Timestamp) (f : Tick) (rs : list Row)
  : list Row :=
  List.filter (fun r => in_window b f (fst r + shift, snd r)) rs.

(** The cells that some rows have in channel [j]. *)
Definition channel (j : nat) (rs : list Row) : list Cell :=
  List.map (fun r => nth j (snd r) None) rs.

(** The shift of the ammonia stamps: 8 hours. *)
Definition shift8 : Z := 8 * NS_PER_HOUR.

(** The path of the averaged file. *)
Definition averaged_path (prep_path : string) : string :=
  prep_path +:+ "\data_averaged.csv".

(** The record that the averaged file holds for the bucket at [b]. *)
Definition averaged_record (data : DataFrame) (f : Tick) (b : Timestamp)
  : option Timestamp * list Cell :=
  (Some b,
   List.map (fun j => group_mean (channel j (bucket shift8 b f (rows data))))
            (seq 0 (List.length (columns data)))).

(** The file that the window at [t] writes, when it writes one: its path and
    its content.  A window whose slice raises or whose path cannot be
    written writes nothing. *)
Definition window_write (write_error : string -> option exn)
    (data_fraction : DataFrame) (f : Tick) (split_path : string)
    (t : Timestamp) : option (string * Csv) :=
  match getitem_slice data_fraction t (t + f) with
  | Raise _ => None
  | Ok data_part =>
      match write_error (SonicData.file_path split_path t) with
      | Some _ => None
      | None => Some (SonicData.file_path split_path t,
                      csv_of (columns data_part) (rows data_part))
      end
  end.

(** The files that the windows in [starts] write, in their order. *)
Definition window_writes (write_error : string -> option exn)
    (data_fraction : DataFrame) (f : Tick)
    (split_path : string) (starts : list Timestamp) : list (string * Csv) :=
  flat_map (fun t => match window_write write_error data_fraction f split_path t with
                     | Some e => [e]
                     | None => []
                     end) starts.

(** Writing some files one after the other; a later file replaces an
    earlier one of the same path. *)
Definition write_all (entries : list (string * Csv)) (m : gmap string Csv)
  : gmap string Csv :=
  fold_left (fun m e => <[fst e := snd e]> m) entries m.

(** The content that the last entry for path [p] carries, if there is one. *)
Definition last_write (entries : list (string * Csv)) (p : string)
  : option Csv :=
  fold_left (fun acc e => if String.eqb (fst e) p then Some (snd e) else acc)
            entries None.

(** The file of the window at [t] when the table is in time order: the rows
    from [t] to [t + f], both included, under the window's name. *)
Definition window_file (split_path : string) (data : DataFrame) (f : Tick)
    (t : Timestamp) : string * Csv :=
  (SonicData.file_path split_path t,
   csv_of (columns data) (List.filter (between t (t + f)) (rows data))).

(** What [map_async] does when the worker of task [i] returns. *)
Definition worker_returns {A B} (func : A -> result B) (iterable : list A)
    (m : Pool.MapResult B) (i : nat) : Pool.MapResult B :=
  match iterable !! i with
  | Some x => Pool._set i (func x) m
  | None => m
  end.

(** The error of the first task, in the order in which the workers return,
    that raised. *)
Fixpoint first_failure {A B} (func : A -> result B) (iterable : list A)
    (completion : list nat) : option exn :=
  match completion with
  | [] => None
  | i :: rest =>
      match iterable !! i with
      | Some x =>
          match func x with
          | Raise e => Some e
          | Ok _ => first_failure func iterable rest
          end
      | None => first_failure func iterable rest
      end
  end.

End Vocabulary.

Module Scenario.
Import Pandas.

(** 2020-01-01T00:00. *)
Definition new_year : Timestamp := 18262 * NS_PER_DAY.

Definition minutes (n : Z) : Tick := n * NS_PER_MINUTE.

(** The range from 00:00 to 02:00, end excluded, every 30 minutes. *)
Definition two_hours : DatetimeIndex :=
  date_range new_year (new_year + 2 * NS_PER_HOUR) (minutes 30) true.

(** A table with one row on each half hour from 00:00 to 02:00. *)
Definition half_hourly : DataFrame :=
  mkFrame "TIMESTAMP" ["Ux"]
    [(new_year, [Some 1%Q]);
     (new_year + minutes 30, [Some 2%Q]);
     (new_year + minutes 60, [Some 3%Q]);
     (new_year + minutes 90, [Some 4%Q]);
     (new_year + minutes 120, [Some 5%Q])].

(** Three rows that are not in time order, as two files merged out of
    order leave them. *)
Definition shuffled : DataFrame :=
  mkFrame "TIMESTAMP" ["Ux"]
    [(new_year + minutes 60, [Some 3%Q]);
     (new_year, [Some 1%Q]);
     (new_year + minutes 30, [Some 2%Q])].

(** One minute cut at 30 seconds. *)
Definition half_minutes : DatetimeIndex :=
  date_range new_year (new_year + NS_PER_MINUTE)
    (30 * NS_PER_SECOND) true.

(** Two raw files: the first holds 00:00 and 00:30, the second 01:00. *)
Definition raw_directory (path : string) (_ : unit) : result Parsed :=
  if String.eqb path "first.dat" then
    Ok (mkParsed ["TIMESTAMP"; "Ux"]
          [(new_year, [Some 1%Q]);
           (new_year + minutes 30, [Some 2%Q])])
  else if String.eqb path "second.dat" then
    Ok (mkParsed ["TIMESTAMP"; "Ux"]
          [(new_year + minutes 60, [Some 3%Q])])
  else Raise (FileNotFoundError path).

Definition raw_files : list (RawData.DataFile unit) :=
  [RawData.mkDataFile unit "first.dat" tt;
   RawData.mkDataFile unit "second.dat" tt].

(** An ammonia table with one row on each full hour from 00:00 to 02:00. *)
Definition hourly : DataFrame :=
  mkFrame "DATE_TIME" ["NH3"; "H2O"]
    [(new_year, [Some (7 # 2); Some 1%Q]);
     (new_year + NS_PER_HOUR, [Some 4%Q; None]);
     (new_year + 2 * NS_PER_HOUR, [Some (9 # 2); Some 3%Q])].

(** The range from 00:00 to 03:00, end excluded, every hour. *)
Definition three_hours : DatetimeIndex :=
  date_range new_year (new_year + 3 * NS_PER_HOUR)
    NS_PER_HOUR true.

Definition empty_world : World := mkWorld ∅ [].

Definition no_write_error : string -> option exn := fun _ => None.

(** A project over the two hours at 30 minutes that leaves the worker count
    to the machine. *)
Definition project : Project.t :=
  Project.mk "test" "D:\proj" new_year
    (new_year + 2 * NS_PER_HOUR) (minutes 30)
    {[ "name"%string := Project.VStr "Sonic" ]}
    {[ "name"%string := Project.VStr "Ammonia" ]} 0.

End Scenario.

(** * Properties *)

Import Pandas.

(** ** Ranges *)

Section Ranges.

Lemma arange_length s f n : List.length (arange s f n) = n.
Proof. unfold arange. now rewrite length_map, length_seq. Qed.

Lemma arange_S s f n : arange s f (S n) = s :: arange (s + f) f n.
Proof.
  unfold arange. cbn [seq List.map]. f_equal; [lia|].
  rewrite <- seq_shift, List.map_map.
  apply List.map_ext. intros k. lia.
Qed.

Lemma evenly_spaced_arange s f n : evenly_spaced f (arange s f n) = true.
Proof.
  revert s. induction n as [|n IH]; intros s; [reflexivity|].
  rewrite arange_S. specialize (IH (s + f)).
  destruct n as [|n]; [reflexivity|].
  rewrite arange_S in *. cbn [evenly_spaced] in *.
  rewrite Z.eqb_refl. exact IH.
Qed.

Lemma evenly_spaced_is_arange f x tl :
  evenly_spaced f (x :: tl) = true ->
  x :: tl = arange x f (S (List.length tl)).
Proof.
  revert x. induction tl as [|y tl IH]; intros x H.
  - unfold arange. cbn. f_equal. lia.
  - cbn [evenly_spaced] in H. apply andb_prop in H as [Hy H].
    apply Z.eqb_eq in Hy. subst y.
    rewrite arange_S. f_equal. now apply IH.
Qed.

Lemma evenly_spaced_tail f x tl :
  evenly_spaced f (x :: tl) = true -> evenly_spaced f tl = true.
Proof.
  destruct tl as [|y tl]; [reflexivity|].
  cbn [evenly_spaced]. intros H. now apply andb_prop in H as [_ H].
Qed.

Lemma evenly_spaced_take f n l :
  evenly_spaced f l = true -> evenly_spaced f (take n l) = true.
Proof.
  revert n. induction l as [|x tl IH]; intros n H.
  - now destruct n.
  - destruct n as [|n]; [reflexivity|].
    cbn [take]. pose proof (evenly_spaced_tail _ _ _ H) as Ht.
    specialize (IH n Ht).
    destruct tl as [|y tl]; [now destruct n|].
    destruct n as [|n]; [reflexivity|].
    cbn [take evenly_spaced] in *.
    apply andb_prop in H as [-> _]. exact IH.
Qed.

Lemma evenly_spaced_drop f n l :
  evenly_spaced f l = true -> evenly_spaced f (drop n l) = true.
Proof.
  revert l. induction n as [|n IH]; intros l H; [now rewrite drop_0|].
  destruct l as [|x tl]; [reflexivity|].
  cbn [drop]. apply IH. eapply evenly_spaced_tail, H.
Qed.

Lemma last_arange s f n d : List.last (arange (s + f) f n) d =
  match n with O => d | S _ => s + Z.of_nat n * f end.
Proof.
  revert s d. induction n as [|n IH]; intros s d; [reflexivity|].
  rewrite arange_S. cbn [List.last].
  destruct n as [|n].
  - cbn. lia.
  - rewrite arange_S. rewrite <- arange_S. rewrite IH. lia.
Qed.

(** Rebuilding a conforming run of stamps from its two ends gives the run
    back: the [pd.date_range(fraction[0], fraction[-1], freq=...)] of the
    partitioner. *)
Lemma date_range_of_run f first tl :
  0 < f -> evenly_spaced f (first :: tl) = true ->
  date_range first (List.last tl first) f false = mkRange (first :: tl) f.
Proof.
  intros Hf H. pose proof (evenly_spaced_is_arange _ _ _ H) as E.
  set (k := List.length tl) in *.
  assert (Hl : List.last tl first = first + Z.of_nat k * f).
  { rewrite arange_S in E. injection E as E. rewrite E at 1.
    rewrite last_arange. destruct k; lia. }
  unfold date_range. rewrite Hl.
  replace (first + Z.of_nat k * f <? first) with false
    by (symmetry; apply Z.ltb_ge; nia).
  replace (first + Z.of_nat k * f - first) with (Z.of_nat k * f) by lia.
  rewrite Z.div_mul by lia.
  replace (Z.to_nat (Z.of_nat k + 1)) with (S k) by lia.
  rewrite <- E. cbn [andb].
  now destruct (List.last (List.map Some (first :: tl)) None).
Qed.

Lemma evenly_spaced_app_r f l1 l2 :
  evenly_spaced f (l1 ++ l2) = true -> evenly_spaced f l2 = true.
Proof.
  intros H. apply (evenly_spaced_drop f (List.length l1)) in H.
  now rewrite drop_app_length in H.
Qed.

Lemma evenly_spaced_seam f l1 x y l2 :
  evenly_spaced f (l1 ++ x :: y :: l2) = true -> y = x + f.
Proof.
  intros H. apply evenly_spaced_app_r in H. cbn [evenly_spaced] in H.
  apply andb_prop in H as [H _]. now apply Z.eqb_eq in H.
Qed.

(** In a conforming run cut into non-empty pieces, each piece starts one
    step after the end of the piece before it. *)
Lemma pieces_contiguous f (ls : list (list Timestamp)) :
  List.Forall (fun l => l <> []) ls ->
  evenly_spaced f (List.concat ls) = true ->
  forall i a b, ls !! i = Some a -> ls !! S i = Some b ->
  exists x y, last a = Some x /\ head b = Some y /\ y = x + f.
Proof.
  induction 1 as [|a0 ls Ha Hall IH]; intros He i a b Hi Hj; [discriminate|].
  cbn [List.concat] in He. destruct i as [|i].
  - injection Hi as <-. destruct ls as [|b0 ls]; [discriminate|].
    injection Hj as <-. apply Forall_cons in Hall as [Hb _].
    destruct b0 as [|y b0]; [congruence|].
    destruct (last a0) as [x|] eqn:El; [|apply last_None in El; congruence].
    exists x, y. split; [exact El|]. split; [reflexivity|].
    apply last_Some in El as [a' ->].
    cbn [List.concat] in He. rewrite <- !app_assoc in He. cbn [app] in He.
    eapply evenly_spaced_seam, He.
  - cbn [lookup list_lookup] in Hi, Hj.
    eapply IH; eauto using evenly_spaced_app_r.
Qed.

Lemma evenly_spaced_lt f x tl :
  0 < f -> evenly_spaced f (x :: tl) = true -> List.Forall (fun y => x < y) tl.
Proof.
  intros Hf. revert x. induction tl as [|y tl IH]; intros x H; constructor.
  - cbn [evenly_spaced] in H. apply andb_prop in H as [H _].
    apply Z.eqb_eq in H. lia.
  - pose proof H as H'. cbn [evenly_spaced] in H. apply andb_prop in H as [Hy H].
    apply Z.eqb_eq in Hy. eapply List.Forall_impl; [|apply (IH _ H)].
    cbn. intros; lia.
Qed.

(** A conforming run with a positive step is strictly ascending. *)
Lemma evenly_spaced_sorted f l :
  0 < f -> evenly_spaced f l = true -> StronglySorted Z.lt l.
Proof.
  intros Hf. induction l as [|x tl IH]; intros H; constructor.
  - apply IH. eapply evenly_spaced_tail, H.
  - now apply (evenly_spaced_lt f).
Qed.

(** [pd.date_range] builds indexes that satisfy the invariant. *)
Lemma date_range_regular start end_ f closed_left :
  0 < f -> regular (date_range start end_ f closed_left) = true.
Proof.
  intros Hf. unfold regular, date_range. cbn [freq values].
  apply andb_true_intro. split; [now apply Z.ltb_lt|].
  set (vs := arange start f _).
  assert (Hvs : evenly_spaced f vs = true) by apply evenly_spaced_arange.
  destruct (List.last (List.map Some vs) None); [|exact Hvs].
  destruct (closed_left && _); [|exact Hvs].
  rewrite removelast_firstn_len. now apply evenly_spaced_take.
Qed.

End Ranges.

(** ** Label slices of a table in time order *)

Section Slices.

Lemma count_cons p x ix :
  count p (x :: ix) = if p x then S (count p ix) else count p ix.
Proof. unfold count. cbn [List.filter]. now destruct (p x). Qed.

Lemma monotonic_increasing_cons x ix :
  is_monotonic_increasing (x :: ix) = true ->
  List.Forall (fun y => x <= y) ix /\ is_monotonic_increasing ix = true.
Proof.
  revert x. induction ix as [|y ix IH]; intros x H.
  - split; [constructor | reflexivity].
  - cbn [is_monotonic_increasing] in H. apply andb_prop in H as [Hxy H].
    apply Z.leb_le in Hxy. split; [|exact H].
    destruct (IH _ H) as [Hall _]. constructor; [exact Hxy|].
    eapply List.Forall_impl; [|exact Hall]. cbn. intros; lia.
Qed.

Lemma count_none p ix :
  List.Forall (fun y => p y = false) ix -> count p ix = 0%nat.
Proof.
  induction 1 as [|y ix Hy _ IH]; [reflexivity|].
  rewrite count_cons, Hy. exact IH.
Qed.

Lemma filter_none {A} (p : A -> bool) l :
  List.Forall (fun y => p y = false) l -> List.filter p l = [].
Proof.
  induction 1 as [|y l' Hy _ IH]; [reflexivity|].
  cbn [List.filter]. now rewrite Hy.
Qed.

Lemma sorted_slice s e (l : list Row) :
  is_monotonic_increasing (List.map fst l) = true ->
  take (count (fun t => t <=? e) (List.map fst l)
        - count (fun t => t <? s) (List.map fst l))
       (drop (count (fun t => t <? s) (List.map fst l)) l)
  = List.filter (between s e) l.
Proof.
  induction l as [|r l IH]; intros H; [reflexivity|].
  cbn [List.map] in *.
  apply monotonic_increasing_cons in H as [Hall Hmono].
  specialize (IH Hmono). rewrite !count_cons. cbn [List.filter].
  unfold between at 1.
  destruct (Z.ltb_spec (fst r) s) as [Hs|Hs];
    destruct (Z.leb_spec (fst r) e) as [He|He];
    destruct (Z.leb_spec s (fst r)) as [Hs'|Hs']; try lia; cbn [andb].
  - exact IH.
  - rewrite (count_none (fun t => t <=? e)) in *.
    2,3: eapply List.Forall_impl; [|exact Hall]; cbn; intros;
         apply Z.leb_gt; lia.
    cbn [Nat.sub take] in *. now destruct (drop _ l).
  - rewrite (count_none (fun t => t <? s)) in *.
    2,3: eapply List.Forall_impl; [|exact Hall]; cbn; intros;
         apply Z.ltb_ge; lia.
    rewrite Nat.sub_0_r, drop_0 in *. cbn [take]. now rewrite IH.
  - rewrite (count_none (fun t => t <? s)) in *.
    2,3: eapply List.Forall_impl; [|exact Hall]; cbn; intros;
         apply Z.ltb_ge; lia.
    rewrite (count_none (fun t => t <=? e)) in *.
    2,3: eapply List.Forall_impl; [|exact Hall]; cbn; intros;
         apply Z.leb_gt; lia.
    exact IH.
Qed.

(** On a table in time order a label slice never raises, and it selects the
    rows of the closed interval: both end points are taken. *)
Lemma getitem_slice_sorted df s e :
  is_monotonic_increasing (index df) = true ->
  getitem_slice df s e =
  Ok (mkFrame (index_name df) (columns df) (List.filter (between s e) (rows df))).
Proof.
  intros H. unfold getitem_slice, get_slice_bound. rewrite H. cbn [bind].
  unfold index in *. now rewrite sorted_slice.
Qed.

Lemma monotonic_increasing_intro x ix :
  List.Forall (fun y => x <= y) ix -> is_monotonic_increasing ix = true ->
  is_monotonic_increasing (x :: ix) = true.
Proof.
  intros Hall Hm. destruct ix as [|y ix]; [reflexivity|].
  cbn [is_monotonic_increasing]. apply Forall_cons in Hall as [Hy _].
  apply andb_true_intro. split; [now apply Z.leb_le | exact Hm].
Qed.

(** Selecting rows of a table in time order leaves a table in time order. *)
Lemma monotonic_filter (p : Row -> bool) (l : list Row) :
  is_monotonic_increasing (List.map fst l) = true ->
  is_monotonic_increasing (List.map fst (List.filter p l)) = true.
Proof.
  induction l as [|r l IH]; intros H; [reflexivity|].
  cbn [List.map] in H. apply monotonic_increasing_cons in H as [Hall Hm].
  cbn [List.filter]. destruct (p r); [|now apply IH].
  cbn [List.map]. apply monotonic_increasing_intro; [|now apply IH].
  apply List.Forall_forall. intros y Hy.
  apply in_map_iff in Hy as (r' & <- & Hr').
  apply filter_In in Hr' as [Hr' _].
  eapply (proj1 (List.Forall_forall _ _) Hall), in_map, Hr'.
Qed.

End Slices.

Section Partitioner.
Import SonicData.

Lemma fractions_loop_nil data f n it :
  take n it = [] -> fractions_loop data f n it = [].
Proof.
  intros H. funelim (fractions_loop data f n it).
  - reflexivity.
  - congruence.
Qed.

Lemma fractions_loop_cons data f n it first tl :
  take n it = first :: tl ->
  fractions_loop data f n it =
  fraction_event_of data f first tl :: fractions_loop data f n (drop n it).
Proof.
  intros H. funelim (fractions_loop data f n it).
  - congruence.
  - rewrite e in H1. injection H1 as <- <-. reflexivity.
Qed.

(** Induction along the turns of the generator's loop. *)
Lemma fractions_loop_induction data f n
    (P : list Timestamp -> list fraction_event -> Prop) :
  (forall it, take n it = [] -> P it []) ->
  (forall it first tl,
      take n it = first :: tl ->
      P (drop n it) (fractions_loop data f n (drop n it)) ->
      P it (fraction_event_of data f first tl
              :: fractions_loop data f n (drop n it))) ->
  forall it, P it (fractions_loop data f n it).
Proof.
  intros Hnil Hcons it.
  remember (List.length it) as k eqn:Hk. revert it Hk.
  induction k as [k IH] using lt_wf_ind. intros it ->.
  destruct (take n it) as [|first tl] eqn:E.
  - rewrite fractions_loop_nil by exact E. now apply Hnil.
  - rewrite (fractions_loop_cons _ _ _ _ _ _ E). apply Hcons; [exact E|].
    eapply IH; [|reflexivity].
    destruct n as [|n]; [discriminate|].
    destruct it as [|x xs]; [discriminate|].
    cbn [drop List.length]. pose proof (length_drop xs n). lia.
Qed.

Lemma fraction_size_ceil len cores :
  0 <= len -> 1 <= cores ->
  fraction_size len cores = (len + cores * 8 - 1) / (cores * 8).
Proof.
  intros Hl Hc. unfold fraction_size.
  set (d := cores * 8). assert (Hd : 0 < d) by (subst d; lia).
  clearbody d. cbv beta iota.
  pose proof (Z.div_mod len d ltac:(lia)) as E.
  pose proof (Z.mod_pos_bound len d Hd) as B.
  destruct (Z.eqb_spec (len mod d) 0) as [H0|H0].
  - apply Z.div_unique with (r := d - 1); lia.
  - apply Z.div_unique with (r := len mod d - 1); lia.
Qed.

(** [ceil_div a b] is the ceiling of [a / b]: the least [q] with
    [a <= q * b]. *)
Lemma ceil_div_spec a b :
  0 < b -> (ceil_div a b - 1) * b < a <= ceil_div a b * b.
Proof.
  intros Hb. unfold ceil_div.
  pose proof (Z.div_mod (a + b - 1) b ltac:(lia)) as E.
  pose proof (Z.mod_pos_bound (a + b - 1) b Hb) as B.
  nia.
Qed.

Lemma fraction_size_nonneg len cores :
  0 <= len -> 1 <= cores -> 0 <= fraction_size len cores.
Proof.
  intros Hl Hc. rewrite fraction_size_ceil by assumption.
  apply Z.div_pos; lia.
Qed.

Lemma fraction_size_pos len cores :
  0 < len -> 1 <= cores -> 0 < fraction_size len cores.
Proof.
  intros Hl Hc. rewrite fraction_size_ceil by lia.
  apply Z.div_str_pos. lia.
Qed.

Lemma make_data_fractions_ok data data_range cores :
  1 <= cores ->
  _make_data_fractions data data_range cores =
  Ok (fractions_loop data (freq data_range)
        (Z.to_nat (fraction_size (Z.of_nat (List.length (values data_range)))
                     cores))
        (values data_range)).
Proof.
  intros Hc. unfold _make_data_fractions.
  destruct (Z.eqb_spec (cores * 8) 0) as [H0|_]; [lia|].
  pose proof (fraction_size_nonneg
                (Z.of_nat (List.length (values data_range))) cores
                ltac:(lia) Hc) as Hn.
  destruct (Z.ltb_spec
              (fraction_size (Z.of_nat (List.length (values data_range))) cores)
              0) as [H|_]; [lia|reflexivity].
Qed.

Lemma fractions_loop_length data f n it :
  (List.length (fractions_loop data f n it) <= List.length it)%nat.
Proof.
  apply (fractions_loop_induction data f n
           (fun it evs => (List.length evs <= List.length it)%nat)).
  - intros; cbn; lia.
  - intros it' first tl E IH. cbn [List.length].
    destruct n as [|n]; [discriminate|].
    destruct it' as [|x xs]; [discriminate|].
    cbn [drop List.length] in *. pose proof (length_drop xs n). lia.
Qed.


Lemma fraction_event_ranges data f first tl :
  0 < f -> evenly_spaced f (first :: tl) = true ->
  yielded_ranges [fraction_event_of data f first tl] = [] \/
  yielded_ranges [fraction_event_of data f first tl] = [mkRange (first :: tl) f].
Proof.
  intros Hf He. unfold fraction_event_of.
  destruct (getitem_slice data first (List.last tl first + f)); cbn.
  - right. now rewrite date_range_of_run.
  - now left.
Qed.

Lemma fraction_event_sorted data f first tl :
  0 < f -> evenly_spaced f (first :: tl) = true ->
  is_monotonic_increasing (index data) = true ->
  yielded_ranges [fraction_event_of data f first tl] = [mkRange (first :: tl) f].
Proof.
  intros Hf He Hs. unfold fraction_event_of.
  rewrite getitem_slice_sorted by exact Hs. cbn.
  now rewrite date_range_of_run.
Qed.

Lemma yielded_ranges_cons ev evs :
  yielded_ranges (ev :: evs) = yielded_ranges [ev] ++ yielded_ranges evs.
Proof. unfold yielded_ranges. cbn [flat_map]. now rewrite app_nil_r. Qed.

(** The sizes of the yielded fractions, along the loop. *)
Lemma fractions_loop_sizes data f n it :
  0 < f -> evenly_spaced f it = true ->
  forall i sub,
    yielded_ranges (fractions_loop data f n it) !! i = Some sub ->
    List.length (values sub) = n \/
    (S i = List.length (yielded_ranges (fractions_loop data f n it)) /\
     List.length (values sub) = (List.length it mod n)%nat /\
     values sub = drop (List.length it - List.length it mod n) it).
Proof.
  intros Hf.
  apply (fractions_loop_induction data f n
    (fun it evs =>
       evenly_spaced f it = true ->
       forall i sub,
         yielded_ranges evs !! i = Some sub ->
         List.length (values sub) = n \/
         (S i = List.length (yielded_ranges evs) /\
          List.length (values sub) = (List.length it mod n)%nat /\
          values sub = drop (List.length it - List.length it mod n) it))).
  - intros it' _ _ i sub H. destruct i; discriminate H.
  - intros it' first tl E IH He i sub H.
    assert (Hn : (0 < n)%nat) by (destruct n; [discriminate|lia]).
    assert (Hrun : evenly_spaced f (first :: tl) = true)
      by (rewrite <- E; now apply evenly_spaced_take).
    specialize (IH (evenly_spaced_drop _ n _ He)).
    pose proof (length_take it' n) as Lt. rewrite E in Lt. cbn [List.length] in Lt.
    pose proof (length_drop it' n) as Ld.
    assert (Hrest : forall j sub',
      yielded_ranges (fractions_loop data f n (drop n it')) !! j = Some sub' ->
      List.length (values sub') = n \/
      (S j = List.length (yielded_ranges (fractions_loop data f n (drop n it'))) /\
       List.length (values sub') = (List.length it' mod n)%nat /\
       values sub' = drop (List.length it' - List.length it' mod n) it')).
    { intros j sub' Hj. destruct (IH j sub' Hj) as [Hfull|(Hlast & Hlen & Hval)];
        [now left|right].
      assert (Hgt : (n < List.length it')%nat).
      { destruct (Nat.lt_ge_cases n (List.length it')) as [|Hle]; [assumption|].
        rewrite drop_ge in Hj by exact Hle.
        rewrite fractions_loop_nil in Hj by (now destruct n).
        destruct j; discriminate Hj. }
      assert (Hmod : (List.length (drop n it') mod n = List.length it' mod n)%nat).
      { rewrite Ld. replace (List.length it') with ((List.length it' - n) + 1 * n)%nat at 2 by lia.
        now rewrite Nat.Div0.mod_add. }
      rewrite Hmod in *. split; [exact Hlast|]. split; [exact Hlen|].
      rewrite Hval, drop_drop. f_equal.
      pose proof (Nat.mod_upper_bound (List.length it') n ltac:(lia)).
      pose proof (Nat.Div0.mod_le (List.length it') n).
      assert ((List.length it' mod n <= List.length it' - n)%nat).
      { rewrite <- Hmod, Ld. apply Nat.Div0.mod_le. }
      lia. }
    rewrite yielded_ranges_cons in *.
    destruct (fraction_event_ranges data f first tl Hf Hrun) as [Hy|Hy];
      rewrite Hy in *.
    + cbn [app] in *. now apply Hrest.
    + cbn [app List.length] in *. destruct i as [|i].
      * injection H as <-. cbn [values List.length].
        destruct (Nat.lt_ge_cases (List.length it') n) as [Hlt|Hge].
        -- right. rewrite drop_ge by lia.
           rewrite fractions_loop_nil by (now destruct n).
           rewrite take_ge in E by lia. subst it'. cbn [List.length] in *.
           rewrite Nat.mod_small by lia.
           split; [reflexivity|]. split; [reflexivity|].
           now rewrite Nat.sub_diag, drop_0.
        -- left. lia.
      * cbn [lookup list_lookup] in H.
        destruct (Hrest i sub H) as [Hfull|(Hlast & Hrem)]; [now left|right].
        split; [now rewrite Hlast | exact Hrem].
Qed.

(** On a table in time order every fraction is yielded, so the yielded
    sub-ranges, put end to end, are the stamps that were consumed. *)
Lemma fractions_loop_cover data f n it :
  0 < f -> is_monotonic_increasing (index data) = true ->
  evenly_spaced f it = true ->
  (0 < n)%nat ->
  List.concat (List.map values (yielded_ranges (fractions_loop data f n it))) = it /\
  List.Forall (fun l => l <> [])
    (List.map values (yielded_ranges (fractions_loop data f n it))).
Proof.
  intros Hf Hs He Hn. revert He.
  apply (fractions_loop_induction data f n
    (fun it evs =>
       evenly_spaced f it = true ->
       List.concat (List.map values (yielded_ranges evs)) = it /\
       List.Forall (fun l => l <> []) (List.map values (yielded_ranges evs)))).
  - intros it' E _. cbn. split; [|constructor].
    destruct n; [lia|]. destruct it'; [reflexivity|discriminate].
  - intros it' first tl E IH He.
    assert (Hrun : evenly_spaced f (first :: tl) = true)
      by (rewrite <- E; now apply evenly_spaced_take).
    destruct (IH (evenly_spaced_drop _ n _ He)) as [IHc IHn].
    rewrite yielded_ranges_cons, (fraction_event_sorted _ _ _ _ Hf Hrun Hs).
    cbn [app List.map List.concat values]. split.
    + rewrite IHc. transitivity (take n it' ++ drop n it');
        [now rewrite E | apply take_drop].
    + constructor; [discriminate|exact IHn].
Qed.

End Partitioner.








(** ** The splitter *)

Section SplitterFacts.
Import SonicData.

Variable write_error : string -> option exn.

Lemma write_window_raise data_fraction f split_path start_time w e :
  window_error write_error data_fraction f split_path start_time = Some e ->
  write_window write_error data_fraction f split_path start_time w = Raise e.
Proof.
  unfold window_error, write_window, to_csv.
  destruct (getitem_slice _ _ _); cbn [bind]; [|congruence].
  now intros ->.
Qed.

Lemma write_window_ok data_fraction f split_path start_time w :
  window_error write_error data_fraction f split_path start_time = None ->
  exists csv,
    write_window write_error data_fraction f split_path start_time w =
    Ok (mkWorld (<[file_path split_path start_time := csv]> (files w)) (stdout w)).
Proof.
  unfold window_error, write_window, to_csv.
  destruct (getitem_slice _ _ _); cbn [bind]; [|discriminate].
  intros ->. eexists. reflexivity.
Qed.

(** The loop returns [True] and has run every window from [i] on. *)
Lemma split_loop_fold data_fraction data_range_fraction split_path i w :
  split_loop write_error data_fraction data_range_fraction split_path i w =
  (Ok true,
   fold_left (fun w t => split_window write_error data_fraction
                           (freq data_range_fraction) split_path t w)
             (drop i (values data_range_fraction)) w).
Proof.
  funelim (split_loop write_error data_fraction data_range_fraction split_path i w).
  - pose proof (proj1 (Nat.ltb_ge _ _) e) as Hge. now rewrite drop_ge.
  - rewrite H. now rewrite (drop_S _ _ _ e0).
  - pose proof (proj1 (Nat.ltb_lt _ _) e) as Hlt.
    pose proof (proj1 (lookup_ge_None _ _) e0). lia.
Qed.

Lemma split_windows_stdout data_fraction f split_path starts w :
  stdout (fold_left (fun w t => split_window write_error data_fraction f
                                  split_path t w) starts w)
  = stdout w ++ window_log write_error data_fraction f split_path starts.
Proof.
  revert w. induction starts as [|t starts IH]; intros w.
  - cbn. now rewrite app_nil_r.
  - cbn [fold_left]. rewrite IH. unfold window_log at 2. cbn [flat_map].
    fold (window_log write_error data_fraction f split_path starts).
    unfold split_window.
    destruct (window_error write_error data_fraction f split_path t) as [e|] eqn:E.
    + rewrite (write_window_raise _ _ _ _ _ _ E). cbn [print stdout].
      now rewrite <- app_assoc.
    + destruct (write_window_ok _ _ _ _ w E) as [csv ->]. reflexivity.
Qed.

Lemma split_window_keeps_files data_fraction f split_path t w p :
  is_Some (files w !! p) ->
  is_Some (files (split_window write_error data_fraction f split_path t w) !! p).
Proof.
  intros H. unfold split_window.
  destruct (window_error write_error data_fraction f split_path t) as [e|] eqn:E.
  - now rewrite (write_window_raise _ _ _ _ _ _ E).
  - destruct (write_window_ok _ _ _ _ w E) as [csv ->]. cbn [files].
    destruct (decide (file_path split_path t = p)) as [->|Hne].
    + rewrite lookup_insert_eq. eauto.
    + now rewrite lookup_insert_ne.
Qed.

Lemma split_windows_keep_files data_fraction f split_path starts w p :
  is_Some (files w !! p) ->
  is_Some (files (fold_left (fun w t => split_window write_error data_fraction
                                          f split_path t w) starts w) !! p).
Proof.
  revert w. induction starts as [|t starts IH]; intros w H; [exact H|].
  cbn [fold_left]. apply IH. now apply split_window_keeps_files.
Qed.

Lemma split_windows_files data_fraction f split_path starts w t :
  In t starts ->
  window_error write_error data_fraction f split_path t = None ->
  is_Some (files (fold_left (fun w t => split_window write_error data_fraction
                                          f split_path t w) starts w)
           !! file_path split_path t).
Proof.
  revert w. induction starts as [|t' starts IH]; intros w Hin E; [destruct Hin|].
  cbn [fold_left]. destruct Hin as [->|Hin]; [|now apply IH].
  apply split_windows_keep_files. unfold split_window.
  destruct (write_window_ok _ _ _ _ w E) as [csv ->]. cbn [files].
  rewrite lookup_insert_eq. eauto.
Qed.

(** On a fraction in time order, a window whose path can be written gets
    the rows of the closed interval from its start to its start plus one
    step. *)
Lemma split_window_sorted data_fraction f split_path t w :
  is_monotonic_increasing (index data_fraction) = true ->
  write_error (file_path split_path t) = None ->
  split_window write_error data_fraction f split_path t w =
  mkWorld (<[file_path split_path t :=
               csv_of (columns data_fraction)
                 (List.filter (between t (t + f)) (rows data_fraction))]>
             (files w))
          (stdout w).
Proof.
  intros Hs Hw. unfold split_window, write_window.
  rewrite getitem_slice_sorted by exact Hs. cbn [bind].
  unfold to_csv. now rewrite Hw.
Qed.

End SplitterFacts.


(** ** The scenario of two hours in half-hour windows *)

Section TwoHours.
Import SonicData Scenario.

Lemma two_hours_values :
  values two_hours =
  [new_year; new_year + minutes 30; new_year + minutes 60; new_year + minutes 90].
Proof. vm_compute. reflexivity. Qed.

Lemma two_hours_names :
  part_name new_year = "2020-01-01_00-00"%string /\
  part_name (new_year + minutes 30) = "2020-01-01_00-30"%string /\
  part_name (new_year + minutes 60) = "2020-01-01_01-00"%string /\
  part_name (new_year + minutes 90) = "2020-01-01_01-30"%string.
Proof. repeat split; vm_compute; reflexivity. Qed.

Lemma two_hours_fractions data :
  is_monotonic_increasing (index data) = true ->
  _make_data_fractions data two_hours 1 =
  Ok (List.map (fun t => Yielded (fst (single data (minutes 30) t))
                                 (snd (single data (minutes 30) t)))
        (values two_hours)).
Proof.
  intros Hs. rewrite make_data_fractions_ok by lia.
  replace (freq two_hours) with (minutes 30) by reflexivity.
  rewrite two_hours_values.
  replace (Z.to_nat (fraction_size (Z.of_nat (List.length _)) 1)) with 1%nat
    by (vm_compute; reflexivity).
  assert (Hev : forall t, fraction_event_of data (minutes 30) t [] =
                          Yielded (fst (single data (minutes 30) t))
                                  (snd (single data (minutes 30) t))).
  { intros t. unfold fraction_event_of. cbn [List.last].
    rewrite getitem_slice_sorted by exact Hs.
    pose proof (date_range_of_run (minutes 30) t [] ltac:(reflexivity)
                  ltac:(reflexivity)) as E.
    cbn [List.last] in E. now rewrite E. }
  repeat (erewrite fractions_loop_cons by reflexivity; cbn [drop]).
  rewrite fractions_loop_nil by reflexivity.
  now rewrite !Hev.
Qed.

End TwoHours.

Lemma four_inserted (X : gset string) (a b c d : string) :
  {[d]} ∪ ({[c]} ∪ ({[b]} ∪ ({[a]} ∪ X))) =
  X ∪ ({[a]} ∪ ({[b]} ∪ ({[c]} ∪ ({[d]} ∪ ∅)))).
Proof.
  apply set_eq. intros x.
  rewrite !elem_of_union, !elem_of_singleton, elem_of_empty. tauto.
Qed.

(** C3, as the code has it.  For the range from 2020-01-01T00:00 to 02:00,
    end excluded, at 30 minutes, one worker and a table in time order, the
    fraction size is [ceil (4 / 8) = 1] stamp, so the partitioner yields
    four fractions of one stamp each; the splitter then returns [True] for
    each and writes exactly the four files [2020-01-01_00-00.csv] to
    [2020-01-01_01-30.csv] under the split directory. *)
Theorem two_hours_four_fractions data prep_path w :
  is_monotonic_increasing (index data) = true ->
  exists events signals w',
    SonicData._make_data_fractions data Scenario.two_hours 1 = Ok events /\
    SonicData.fraction_size 4 1 = 1 /\
    List.map values (SonicData.yielded_ranges events) =
      List.map (fun t => [t]) (values Scenario.two_hours) /\
    SonicData.prepare_data Scenario.no_write_error data Scenario.two_hours 1
      prep_path w = Ok (signals, w') /\
    signals = [Ok true; Ok true; Ok true; Ok true] /\
    dom (files w') =
      dom (files w) ∪
      list_to_set
        (List.map (fun name => (prep_path +:+ "\Split") +:+ "\" +:+ name +:+ ".csv")
           ["2020-01-01_00-00"; "2020-01-01_00-30"; "2020-01-01_01-00";
            "2020-01-01_01-30"]%string).
Proof.
  intros Hs. pose proof (two_hours_fractions data Hs) as E.
  unfold SonicData.prepare_data. rewrite E. cbn [bind].
  rewrite two_hours_values in *. cbn [List.map single fst snd] in *.
  do 3 eexists. split; [reflexivity|]. split; [reflexivity|].
  split; [reflexivity|].
  cbn [SonicData.dispatch]. unfold SonicData._split_data_fraction.
  rewrite !split_loop_fold, !drop_0. cbn [values freq fold_left].
  assert (Hf : forall t, is_monotonic_increasing
             (index (mkFrame (index_name data) (columns data)
                (List.filter (between t (t + Scenario.minutes 30)) (rows data))))
             = true).
  { intros t. unfold index. cbn [rows]. now apply monotonic_filter. }
  rewrite !split_window_sorted by (apply Hf || reflexivity).
  split; [reflexivity|]. split; [reflexivity|].
  cbn [files]. rewrite !dom_insert_L.
  destruct two_hours_names as (N0 & N1 & N2 & N3).
  unfold SonicData.file_path. rewrite N0, N1, N2, N3.
  cbn [List.map list_to_set]. apply four_inserted.
Qed.

Lemma two_hours_four_fractions_witness :
  exists events signals w',
    SonicData._make_data_fractions Scenario.half_hourly Scenario.two_hours 1
    = Ok events /\
    SonicData.fraction_size 4 1 = 1 /\
    List.map values (SonicData.yielded_ranges events) =
      List.map (fun t => [t]) (values Scenario.two_hours) /\
    SonicData.prepare_data Scenario.no_write_error Scenario.half_hourly
      Scenario.two_hours 1 "P" Scenario.empty_world = Ok (signals, w') /\
    signals = [Ok true; Ok true; Ok true; Ok true] /\
    dom (files w') =
      dom (files Scenario.empty_world) ∪
      list_to_set
        (List.map (fun name => ("P" +:+ "\Split") +:+ "\" +:+ name +:+ ".csv")
           ["2020-01-01_00-00"; "2020-01-01_00-30"; "2020-01-01_01-00";
            "2020-01-01_01-30"]%string).
Proof.
  apply (two_hours_four_fractions Scenario.half_hourly "P" Scenario.empty_world).
  vm_compute. reflexivity.
Defined.

(** C3 as stated fails: with one worker the four stamps are not kept in one
    fraction.  The partitioner yields four fractions, and none of them spans
    the range. *)
Lemma two_hours_not_one_fraction :
  exists events,
    SonicData._make_data_fractions Scenario.half_hourly Scenario.two_hours 1
    = Ok events /\
    List.length (SonicData.yielded events) = 4%nat /\
    List.length (SonicData.yielded events) <> 1%nat /\
    List.Forall (fun r => values r <> values Scenario.two_hours)
      (SonicData.yielded_ranges events).
Proof.
  eexists. split; [vm_compute; reflexivity|].
  split; [reflexivity|]. split; [discriminate|].
  repeat constructor; vm_compute; discriminate.
Qed.

(** ** File names *)

Ltac unfold_ticks :=
  unfold NS_PER_DAY, NS_PER_HOUR, NS_PER_MINUTE, NS_PER_SECOND in *.

Section FileNames.
Import SonicData.

Lemma append_cons c a b : String c a +:+ b = String c (a +:+ b).
Proof. reflexivity. Qed.

Lemma append_length a b :
  String.length (a +:+ b) = (String.length a + String.length b)%nat.
Proof.
  induction a as [|c a IH]; [reflexivity|].
  rewrite append_cons. cbn [String.length Nat.add]. now f_equal.
Qed.

Lemma append_assoc a b c : (a +:+ b) +:+ c = a +:+ (b +:+ c).
Proof.
  induction a as [|x a IH]; [reflexivity|].
  rewrite !append_cons. now f_equal.
Qed.

Lemma append_inj a a' b b' :
  String.length a = String.length a' ->
  a +:+ b = a' +:+ b' -> a = a' /\ b = b'.
Proof.
  revert a'. induction a as [|c a IH]; intros [|c' a'] Hl H;
    try discriminate Hl.
  - now split.
  - rewrite !append_cons in H. injection H as -> H.
    injection Hl as Hl. destruct (IH _ Hl H) as [-> ->]. now split.
Qed.

Lemma replace_append old new a b :
  Py.replace old new (a +:+ b) = Py.replace old new a +:+ Py.replace old new b.
Proof.
  induction a as [|c a IH]; [reflexivity|].
  rewrite append_cons. cbn [Py.replace]. rewrite append_cons. now f_equal.
Qed.

Lemma substring_prefix p s : substring 0 (String.length p) (p +:+ s) = p.
Proof.
  induction p as [|c p IH]; [now destruct s|].
  rewrite append_cons. cbn [String.length substring]. now f_equal.
Qed.

Lemma slice_to_neg_append k p s :
  String.length s = k -> Py.slice_to_neg k (p +:+ s) = p.
Proof.
  intros <-. unfold Py.slice_to_neg. rewrite append_length.
  replace (String.length p + String.length s - String.length s)%nat
    with (String.length p) by lia.
  apply substring_prefix.
Qed.

Lemma digit_inj a b :
  0 <= a < 10 -> 0 <= b < 10 -> Py.digit a = Py.digit b -> a = b.
Proof.
  intros Ha Hb H. unfold Py.digit in H.
  apply (f_equal nat_of_ascii) in H.
  rewrite !nat_ascii_embedding in H by lia. lia.
Qed.

Lemma digit_not_colon n : Ascii.eqb (Py.digit (n mod 10)) ":" = false.
Proof.
  apply Ascii.eqb_neq. intros H.
  pose proof (Z.mod_pos_bound n 10 ltac:(lia)) as B.
  unfold Py.digit in H. apply (f_equal nat_of_ascii) in H.
  rewrite nat_ascii_embedding in H by lia.
  change (nat_of_ascii ":") with 58%nat in H. lia.
Qed.

Lemma zfill_length w n : String.length (Py.zfill w n) = w.
Proof.
  revert n. induction w as [|w IH]; intros n; [reflexivity|].
  cbn [Py.zfill]. rewrite append_length, IH. cbn. lia.
Qed.

Lemma zfill_replace w n : Py.replace ":" "-" (Py.zfill w n) = Py.zfill w n.
Proof.
  revert n. induction w as [|w IH]; intros n; [reflexivity|].
  cbn [Py.zfill]. rewrite replace_append, IH. cbn [Py.replace].
  now rewrite digit_not_colon.
Qed.

Lemma zfill_inj w a b :
  0 <= a < 10 ^ Z.of_nat w -> 0 <= b < 10 ^ Z.of_nat w ->
  Py.zfill w a = Py.zfill w b -> a = b.
Proof.
  revert a b. induction w as [|w IH]; intros a b Ha Hb H.
  - cbn in Ha, Hb. lia.
  - rewrite Nat2Z.inj_succ, Z.pow_succ_r in Ha, Hb by lia.
    cbn [Py.zfill] in H.
    apply append_inj in H as [H1 H2]; [|now rewrite !zfill_length].
    injection H2 as H2.
    apply digit_inj in H2; [|apply Z.mod_pos_bound; lia ..].
    assert (a / 10 = b / 10) as Hq.
    { apply IH; [| |exact H1]; split;
        try (apply Z.div_pos; lia); apply Z.div_lt_upper_bound; lia. }
    rewrite (Z.div_mod a 10), (Z.div_mod b 10) by lia. now rewrite Hq, H2.
Qed.

Lemma time_fields t :
  0 <= Py.hour (time t) < 24 /\ 0 <= Py.minute (time t) < 60 /\
  0 <= Py.second (time t) < 60 /\ 0 <= Py.microsecond (time t) < 1000000.
Proof.
  unfold time. cbn [Py.hour Py.minute Py.second Py.microsecond].
  unfold_ticks. Z.div_mod_to_equations. lia.
Qed.

Lemma civil_fields z :
  -106752 <= z <= 106751 ->
  0 <= Py.year (Py.civil_from_days z) < 10000 /\
  1 <= Py.month (Py.civil_from_days z) <= 12 /\
  1 <= Py.day (Py.civil_from_days z) <= 31.
Proof.
  intros Hz. unfold Py.civil_from_days. cbn [Py.year Py.month Py.day].
  repeat match goal with
         | |- context [if ?c then _ else _] => destruct c eqn:?
         end;
  repeat match goal with
         | H : (_ <? _) = _ |- _ =>
             first [apply Z.ltb_lt in H | apply Z.ltb_ge in H]
         | H : (_ <=? _) = _ |- _ =>
             first [apply Z.leb_le in H | apply Z.leb_gt in H]
         end;
  Z.div_mod_to_equations; lia.
Qed.

Lemma date_fields t :
  TS_MIN <= t <= TS_MAX ->
  0 <= Py.year (date t) < 10000 /\
  1 <= Py.month (date t) <= 12 /\ 1 <= Py.day (date t) <= 31.
Proof.
  intros Ht. unfold date. apply civil_fields.
  unfold TS_MIN, TS_MAX in Ht. unfold_ticks.
  Z.div_mod_to_equations. lia.
Qed.

(** Different days have different dates. *)
Lemma civil_from_days_inj z1 z2 :
  Py.civil_from_days z1 = Py.civil_from_days z2 -> z1 = z2.
Proof.
  unfold Py.civil_from_days. intros H. injection H as Hy Hm Hd.
  repeat match goal with
         | H : context [if ?c then _ else _] |- _ => destruct c eqn:?
         end;
  repeat match goal with
         | H : (_ <? _) = _ |- _ =>
             first [apply Z.ltb_lt in H | apply Z.ltb_ge in H]
         | H : (_ <=? _) = _ |- _ =>
             first [apply Z.leb_le in H | apply Z.leb_gt in H]
         end;
  Z.div_mod_to_equations; lia.
Qed.

(** A stamp without a fractional second gets the name of its minute. *)
Lemma part_name_minute t :
  Py.microsecond (time t) = 0 -> part_name t = minute_name t.
Proof.
  intros Hus. unfold part_name, minute_name, Py.str_date, Py.str_time.
  rewrite Hus. cbn [Z.eqb].
  rewrite !replace_append, !zfill_replace.
  change (Py.replace ":" "-" ":") with "-"%string.
  change (Py.replace ":" "-" "") with ""%string.
  set (H := Py.zfill 2 (Py.hour (time t))).
  set (M := Py.zfill 2 (Py.minute (time t))).
  set (S := Py.zfill 2 (Py.second (time t))).
  replace (H +:+ "-" +:+ M +:+ "-" +:+ S +:+ "")
    with ((H +:+ "-" +:+ M) +:+ ("-" +:+ S +:+ ""))
    by (now rewrite !append_assoc).
  rewrite slice_to_neg_append.
  - now rewrite !append_assoc.
  - subst S. now rewrite !append_length, zfill_length.
Qed.

Lemma minute_name_length t : String.length (minute_name t) = 16%nat.
Proof.
  unfold minute_name. now rewrite !append_length, !zfill_length.
Qed.

Lemma minute_of_fields t :
  t / NS_PER_MINUTE =
  (t / NS_PER_DAY) * 1440 + Py.hour (time t) * 60 + Py.minute (time t).
Proof.
  unfold time. cbn [Py.hour Py.minute]. unfold_ticks.
  Z.div_mod_to_equations. lia.
Qed.

Lemma minute_name_inj t1 t2 :
  TS_MIN <= t1 <= TS_MAX -> TS_MIN <= t2 <= TS_MAX ->
  minute_name t1 = minute_name t2 -> t1 / NS_PER_MINUTE = t2 / NS_PER_MINUTE.
Proof.
  intros B1 B2 H.
  destruct (date_fields t1 B1) as (Y1 & M1 & D1).
  destruct (date_fields t2 B2) as (Y2 & M2 & D2).
  destruct (time_fields t1) as (h1 & m1 & _).
  destruct (time_fields t2) as (h2 & m2 & _).
  unfold minute_name in H.
  apply append_inj in H as [HY H]; [|now rewrite !zfill_length].
  apply append_inj in H as [_ H]; [|reflexivity].
  apply append_inj in H as [HM H]; [|now rewrite !zfill_length].
  apply append_inj in H as [_ H]; [|reflexivity].
  apply append_inj in H as [HD H]; [|now rewrite !zfill_length].
  apply append_inj in H as [_ H]; [|reflexivity].
  apply append_inj in H as [Hh H]; [|now rewrite !zfill_length].
  apply append_inj in H as [_ Hm]; [|reflexivity].
  apply zfill_inj in HY; [|change (10 ^ Z.of_nat 4) with 10000; lia ..].
  apply zfill_inj in HM; [|change (10 ^ Z.of_nat 2) with 100; lia ..].
  apply zfill_inj in HD; [|change (10 ^ Z.of_nat 2) with 100; lia ..].
  apply zfill_inj in Hh; [|change (10 ^ Z.of_nat 2) with 100; lia ..].
  apply zfill_inj in Hm; [|change (10 ^ Z.of_nat 2) with 100; lia ..].
  assert (Hday : t1 / NS_PER_DAY = t2 / NS_PER_DAY).
  { apply civil_from_days_inj. unfold date in *.
    destruct (Py.civil_from_days (t1 / NS_PER_DAY)),
             (Py.civil_from_days (t2 / NS_PER_DAY)).
    cbn [Py.year Py.month Py.day] in *. congruence. }
  rewrite (minute_of_fields t1), (minute_of_fields t2). congruence.
Qed.

Lemma minute_name_same t1 t2 :
  t1 / NS_PER_MINUTE = t2 / NS_PER_MINUTE -> minute_name t1 = minute_name t2.
Proof.
  intros H.
  assert (Hd : t1 / NS_PER_DAY = t2 / NS_PER_DAY)
    by (revert H; unfold_ticks; Z.div_mod_to_equations; lia).
  assert (Hh : Py.hour (time t1) = Py.hour (time t2))
    by (revert H; unfold time; cbn [Py.hour]; unfold_ticks;
        Z.div_mod_to_equations; lia).
  assert (Hm : Py.minute (time t1) = Py.minute (time t2))
    by (revert H; unfold time; cbn [Py.minute]; unfold_ticks;
        Z.div_mod_to_equations; lia).
  unfold minute_name, date. now rewrite Hd, Hh, Hm.
Qed.

End FileNames.

(** C5, as the code has it.  A window whose start has no fractional second
    is written to [<split_path>\YYYY-MM-DD_HH-MM.csv], named after the date,
    hour and minute of its start; two such windows are written to the same
    path exactly when their starts lie in the same minute. *)
Theorem window_file_names split_path t1 t2 :
  TS_MIN <= t1 <= TS_MAX -> TS_MIN <= t2 <= TS_MAX ->
  Py.microsecond (time t1) = 0 -> Py.microsecond (time t2) = 0 ->
  SonicData.file_path split_path t1 =
    split_path +:+ "\" +:+ minute_name t1 +:+ ".csv" /\
  (SonicData.file_path split_path t1 = SonicData.file_path split_path t2 <->
   t1 / NS_PER_MINUTE = t2 / NS_PER_MINUTE).
Proof.
  intros B1 B2 U1 U2. unfold SonicData.file_path.
  rewrite !part_name_minute by assumption. split; [reflexivity|]. split.
  - intros H. apply (inj (String.app split_path)) in H.
    apply (inj (String.app "\")) in H.
    apply append_inj in H as [H _]; [|now rewrite !minute_name_length].
    now apply minute_name_inj.
  - intros H. now rewrite (minute_name_same _ _ H).
Qed.

Lemma window_file_names_witness :
  SonicData.file_path "P" Scenario.new_year =
    "P" +:+ "\" +:+ minute_name Scenario.new_year +:+ ".csv" /\
  (SonicData.file_path "P" Scenario.new_year =
   SonicData.file_path "P" (Scenario.new_year + Scenario.minutes 30) <->
   Scenario.new_year / NS_PER_MINUTE =
   (Scenario.new_year + Scenario.minutes 30) / NS_PER_MINUTE).
Proof.
  apply (window_file_names "P" Scenario.new_year
           (Scenario.new_year + Scenario.minutes 30));
    vm_compute; try reflexivity; split; discriminate.
Defined.

(** C5 as stated fails.  The two windows of a minute cut at 30 seconds have
    different starts and the same file name, so the run leaves one file for
    both; and a start with a microsecond part gets a name with seconds and
    milliseconds in it. *)
Lemma half_minute_windows_collide :
  values Scenario.half_minutes =
    [Scenario.new_year; Scenario.new_year + 30 * NS_PER_SECOND] /\
  Scenario.new_year <> Scenario.new_year + 30 * NS_PER_SECOND /\
  SonicData.file_path "P" Scenario.new_year =
    SonicData.file_path "P" (Scenario.new_year + 30 * NS_PER_SECOND) /\
  (exists signals w',
     SonicData.prepare_data Scenario.no_write_error Scenario.half_hourly
       Scenario.half_minutes 1 "P" Scenario.empty_world = Ok (signals, w') /\
     dom (files w') = {[ "P\Split\2020-01-01_00-00.csv"%string ]}) /\
  SonicData.part_name (Scenario.new_year + 1000) = "2020-01-01_00-00-00.000"%string.
Proof.
  split; [vm_compute; reflexivity|].
  split; [vm_compute; discriminate|].
  split; [vm_compute; reflexivity|].
  split; [|vm_compute; reflexivity].
  eexists _, _. split; [vm_compute; reflexivity|].
  vm_compute. reflexivity.
Qed.

(** ** The worker pool and the merge *)

Section PoolFacts.

Context {A B : Type} (func : A -> result B).

Lemma map_async_slots (xs : list A) (bs : list B) :
  Forall2 (fun x b => func x = Ok b) xs bs ->
  forall completion m,
    Pool.failure m = None ->
    List.length (Pool.value m) = List.length xs ->
    let m' := fold_left (fun m i => match xs !! i with
                                    | Some x => Pool._set i (func x) m
                                    | None => m
                                    end) completion m in
    Pool.failure m' = None /\
    List.length (Pool.value m') = List.length xs /\
    forall i, (i < List.length xs)%nat ->
      Pool.value m' !! i =
      if decide (i ∈ completion) then Some (bs !! i) else Pool.value m !! i.
Proof.
  intros Hall. induction completion as [|j rest IH]; intros m Hf Hl.
  - cbn. split; [exact Hf|]. split; [exact Hl|]. intros i Hi.
    now rewrite decide_False by apply not_elem_of_nil.
  - cbn [fold_left]. destruct (xs !! j) as [x|] eqn:Ex.
    + destruct (Forall2_lookup_l _ _ _ _ _ Hall Ex) as (b & Eb & Hb).
      set (m1 := Pool.mkMapResult (<[j:=Some b]> (Pool.value m)) None).
      assert (Es : Pool._set j (func x) m = m1)
        by (unfold Pool._set; now rewrite Hb, Hf).
      rewrite Es.
      destruct (IH m1 eq_refl) as (F & L & V).
      { subst m1. cbn. now rewrite length_insert. }
      cbv zeta in *.
      split; [exact F|]. split; [exact L|]. intros i Hi.
      rewrite (V i Hi). subst m1. cbn [Pool.value].
      destruct (decide (i ∈ rest)) as [Hin|Hnin].
      * rewrite decide_True by (now apply elem_of_cons; right). reflexivity.
      * destruct (decide (i = j)) as [->|Hne].
        -- rewrite decide_True by (apply elem_of_cons; now left).
           rewrite list_lookup_insert_eq by lia. now rewrite Eb.
        -- rewrite decide_False
             by (intros [?|?]%elem_of_cons; congruence).
           now rewrite list_lookup_insert_ne by congruence.
    + destruct (IH m Hf Hl) as (F & L & V). cbv zeta in *.
      split; [exact F|]. split; [exact L|]. intros i Hi.
      rewrite (V i Hi).
      destruct (decide (i ∈ rest)) as [Hin|Hnin].
      * rewrite decide_True by (now apply elem_of_cons; right). reflexivity.
      * rewrite decide_False; [reflexivity|].
        intros [->|?]%elem_of_cons; [|congruence].
        apply lookup_ge_None in Ex. lia.
Qed.

Lemma mapM_id_Some (bs : list B) : mapM id (List.map Some bs) = Some bs.
Proof.
  induction bs as [|b bs IH]; [reflexivity|].
  cbn. rewrite IH. reflexivity.
Qed.

(** When every task succeeds, [get] returns the values in the order of the
    tasks, in whatever order the workers return. *)
Lemma map_async_get (xs : list A) (bs : list B) completion :
  Forall2 (fun x b => func x = Ok b) xs bs ->
  completion ≡ₚ seq 0 (List.length xs) ->
  Pool.get (Pool.map_async func xs completion) = Some (Ok bs).
Proof.
  intros Hall Hperm. unfold Pool.map_async.
  destruct (map_async_slots xs bs Hall completion
              (Pool.mkMapResult (replicate (List.length xs) None) None)
              eq_refl) as (F & L & V).
  { cbn. apply length_replicate. }
  cbv zeta in *. unfold Pool.get. rewrite F.
  match goal with |- context [Pool.value ?m] => set (m' := m) in * end.
  assert (E : Pool.value m' = List.map Some bs).
  { apply list_eq. intros i.
    destruct (Nat.lt_ge_cases i (List.length xs)) as [Hi|Hi].
    - rewrite (V i Hi). rewrite decide_True.
      + rewrite list_lookup_fmap.
        destruct (bs !! i) eqn:Eb; [reflexivity|].
        apply lookup_ge_None in Eb. apply Forall2_length in Hall. lia.
      + rewrite Hperm. apply elem_of_seq. lia.
    - rewrite lookup_ge_None_2 by lia.
      symmetry. apply lookup_ge_None_2.
      rewrite length_map. apply Forall2_length in Hall. lia. }
  rewrite E, mapM_id_Some. reflexivity.
Qed.

End PoolFacts.


Section MergeFacts.

Lemma concat_index_rows cs (frames : list DataFrame) :
  List.map fst (flat_map (fun df => List.map (reindex_row cs df) (rows df)) frames)
  = flat_map index frames.
Proof.
  induction frames as [|df frames IH]; [reflexivity|].
  change (List.map fst
            (List.map (reindex_row cs df) (rows df) ++
             flat_map (fun df => List.map (reindex_row cs df) (rows df)) frames)
          = index df ++ flat_map index frames).
  rewrite List.map_app. f_equal; [|exact IH].
  unfold index. rewrite List.map_map. reflexivity.
Qed.

Lemma concat_index frames data :
  concat frames = Ok data -> index data = flat_map index frames.
Proof.
  unfold concat. destruct frames as [|df0 frames]; [discriminate|].
  intros [= <-]. exact (concat_index_rows _ (df0 :: frames)).
Qed.

Lemma position_lookup cs j c :
  NoDup cs -> cs !! j = Some c -> position c cs = Some j.
Proof.
  intros Hnd. revert j. induction Hnd as [|c' cs Hnin Hnd IH]; intros j Hj;
    [discriminate|].
  cbn [position]. destruct j as [|j].
  - injection Hj as ->. now rewrite String.eqb_refl.
  - cbn in Hj. destruct (String.eqb_spec c c') as [->|_].
    + exfalso. apply Hnin. eapply list_elem_of_lookup_2, Hj.
    + now rewrite (IH j Hj).
Qed.

Lemma reindex_row_same cs df r :
  columns df = cs -> NoDup cs -> List.length (snd r) = List.length cs ->
  reindex_row cs df r = r.
Proof.
  intros <- Hnd Hl. unfold reindex_row. destruct r as [t cells]. cbn [fst snd] in *.
  f_equal. apply list_eq. intros i. rewrite list_lookup_fmap.
  destruct (columns df !! i) as [c|] eqn:Ec; cbn.
  - rewrite (position_lookup _ _ _ Hnd Ec).
    destruct (cells !! i) as [v|] eqn:Ev.
    + f_equal. now apply nth_lookup_Some with (d := None) in Ev.
    + apply lookup_ge_None in Ev. apply lookup_lt_Some in Ec. lia.
  - apply lookup_ge_None in Ec. symmetry. apply lookup_ge_None. lia.
Qed.

Lemma filter_known cs :
  List.filter (fun c => negb (existsb (String.eqb c) cs)) cs = [].
Proof.
  apply filter_none. apply List.Forall_forall. intros c Hc.
  apply negb_false_iff, existsb_exists. exists c. split; [exact Hc|].
  apply String.eqb_refl.
Qed.

Lemma union_columns_same cs df frames :
  List.Forall (fun d => columns d = cs) (df :: frames) ->
  union_columns (df :: frames) = cs.
Proof.
  intros H. apply Forall_cons in H as [Hdf Hall].
  unfold union_columns. cbn [fold_left]. rewrite Hdf, app_nil_l.
  assert (E : List.filter (fun c => negb (existsb (String.eqb c) [])) cs = cs).
  { clear. induction cs as [|c cs IH]; [reflexivity|].
    change (c :: List.filter (fun c => negb (existsb (String.eqb c) [])) cs
            = c :: cs). now f_equal. }
  rewrite E. clear E Hdf.
  induction Hall as [|d frames Hd _ IH]; [reflexivity|].
  cbn [fold_left]. now rewrite Hd, filter_known, app_nil_r.
Qed.

Lemma reindex_rows_same cs (l : list DataFrame) :
  NoDup cs ->
  List.Forall (fun d => columns d = cs /\
                        List.Forall (fun r => List.length (snd r) = List.length cs)
                                    (rows d)) l ->
  flat_map (fun df => List.map (reindex_row cs df) (rows df)) l = flat_map rows l.
Proof.
  intros Hnd Hall. induction Hall as [|d l [Hc Hr] _ IH]; [reflexivity|].
  change (List.map (reindex_row cs d) (rows d) ++
          flat_map (fun df => List.map (reindex_row cs df) (rows df)) l
          = rows d ++ flat_map rows l).
  f_equal; [|exact IH].
  clear IH. induction Hr as [|r rs Hr _ IH]; [reflexivity|].
  cbn [List.map]. now rewrite reindex_row_same, IH.
Qed.

Lemma concat_rows cs frames data :
  NoDup cs ->
  List.Forall (fun d => columns d = cs /\
                        List.Forall (fun r => List.length (snd r) = List.length cs)
                                    (rows d)) frames ->
  concat frames = Ok data -> rows data = flat_map rows frames.
Proof.
  intros Hnd Hall. unfold concat.
  destruct frames as [|df0 frames]; [discriminate|]. intros [= <-].
  unfold rows at 1. rewrite (union_columns_same cs)
    by (eapply List.Forall_impl; [|exact Hall]; now intros ? [? _]).
  exact (reindex_rows_same cs (df0 :: frames) Hnd Hall).
Qed.

End MergeFacts.

(** C9, as the code has it.  When every file parses, the merged table is
    the concatenation of the per-file record sets in the order of the file
    list, in whatever order the workers return: its index is the indexes of
    the files one after the other, nothing sorted and no stamp dropped, and
    when the files have the same columns its rows are the rows of the files
    one after the other. *)
Theorem merge_keeps_file_order (Format : Type)
    (read_csv : string -> Format -> result Parsed)
    (data_files : list (RawData.DataFile Format)) (frames : list DataFrame)
    (completion : list nat) :
  Forall2 (fun f d => RawData._read_data_file Format read_csv f = Ok d)
          data_files frames ->
  completion ≡ₚ seq 0 (List.length data_files) ->
  data_files <> [] ->
  exists data,
    RawData._merge_data Format read_csv data_files completion = Some (Ok data) /\
    index data = flat_map index frames /\
    (forall cs,
        NoDup cs ->
        List.Forall (fun d => columns d = cs /\
                       List.Forall (fun r => List.length (snd r) = List.length cs)
                                   (rows d)) frames ->
        rows data = flat_map rows frames).
Proof.
  intros Hall Hperm Hne. unfold RawData._merge_data.
  rewrite (map_async_get _ _ _ _ Hall Hperm). cbn [option_map bind].
  destruct (concat frames) as [data|e] eqn:E.
  - exists data. split; [reflexivity|]. split; [now apply concat_index|].
    intros cs Hnd Hcs. now apply (concat_rows cs).
  - exfalso. unfold concat in E. destruct frames; [|discriminate].
    apply Forall2_length in Hall. destruct data_files; [congruence|discriminate].
Qed.

Lemma merge_keeps_file_order_witness :
  exists data,
    RawData._merge_data unit Scenario.raw_directory Scenario.raw_files [1; 0]%nat
    = Some (Ok data) /\
    index data =
      flat_map index
        [mkFrame "TIMESTAMP" ["Ux"]
           [(Scenario.new_year, [Some 1%Q]);
            (Scenario.new_year + Scenario.minutes 30, [Some 2%Q])];
         mkFrame "TIMESTAMP" ["Ux"]
           [(Scenario.new_year + Scenario.minutes 60, [Some 3%Q])]] /\
    (forall cs,
        NoDup cs ->
        List.Forall (fun d => columns d = cs /\
                       List.Forall (fun r => List.length (snd r) = List.length cs)
                                   (rows d))
          [mkFrame "TIMESTAMP" ["Ux"]
             [(Scenario.new_year, [Some 1%Q]);
              (Scenario.new_year + Scenario.minutes 30, [Some 2%Q])];
           mkFrame "TIMESTAMP" ["Ux"]
             [(Scenario.new_year + Scenario.minutes 60, [Some 3%Q])]] ->
        rows data =
          flat_map rows
            [mkFrame "TIMESTAMP" ["Ux"]
               [(Scenario.new_year, [Some 1%Q]);
                (Scenario.new_year + Scenario.minutes 30, [Some 2%Q])];
             mkFrame "TIMESTAMP" ["Ux"]
               [(Scenario.new_year + Scenario.minutes 60, [Some 3%Q])]]).
Proof.
  apply (merge_keeps_file_order unit Scenario.raw_directory Scenario.raw_files).
  - repeat constructor.
  - cbn. apply Permutation_swap.
  - discriminate.
Defined.

(** C9 as stated fails: when the worker of the second file returns first,
    the merged table still starts with the rows of the first file; it is not
    the concatenation in the order in which the workers returned. *)
Lemma merge_not_in_completion_order :
  exists data,
    RawData._merge_data unit Scenario.raw_directory Scenario.raw_files [1; 0]%nat
    = Some (Ok data) /\
    index data =
      [Scenario.new_year; Scenario.new_year + Scenario.minutes 30;
       Scenario.new_year + Scenario.minutes 60] /\
    index data <>
      [Scenario.new_year + Scenario.minutes 60;
       Scenario.new_year; Scenario.new_year + Scenario.minutes 30].
Proof.
  eexists. split; [vm_compute; reflexivity|].
  split; [vm_compute; reflexivity | vm_compute; discriminate].
Qed.

(** ** What a window file holds *)

Lemma filter_narrow (p q : Row -> bool) (l : list Row) :
  (forall r, q r = true -> p r = true) ->
  List.filter q (List.filter p l) = List.filter q l.
Proof.
  intros Hpq. induction l as [|r l IH]; [reflexivity|].
  cbn [List.filter]. destruct (p r) eqn:Ep, (q r) eqn:Eq.
  - cbn [List.filter]. now rewrite Eq, IH.
  - cbn [List.filter]. now rewrite Eq, IH.
  - rewrite (Hpq r Eq) in Ep. discriminate.
  - exact IH.
Qed.

(** On a table in time order, the file of a window of a fraction holds the
    rows of the closed interval from the window's start to its start plus
    one step: a row stamped with the end of the window is taken too. *)
Lemma window_rows_closed write_error data first last f t split_path w :
  is_monotonic_increasing (index data) = true ->
  first <= t <= last ->
  write_error (SonicData.file_path split_path t) = None ->
  exists data_fraction,
    getitem_slice data first (last + f) = Ok data_fraction /\
    files (SonicData.split_window write_error data_fraction f split_path t w)
      !! SonicData.file_path split_path t
    = Some (csv_of (columns data) (List.filter (between t (t + f)) (rows data))).
Proof.
  intros Hs Ht Hw. eexists. split; [now apply getitem_slice_sorted|].
  rewrite split_window_sorted; [| |exact Hw].
  - cbn [files columns rows]. rewrite lookup_insert_eq. do 2 f_equal.
    apply filter_narrow. intros r. unfold between.
    intros [H1 H2]%andb_prop. apply Z.leb_le in H1, H2.
    apply andb_true_intro. split; apply Z.leb_le; lia.
  - unfold index. cbn [rows]. now apply monotonic_filter.
Qed.

(** C1.  The splitter on the half-hourly table over the two hours: the row
    stamped 00:30 is written both to the window that starts at 00:00 and to
    the window that starts at 00:30, and the row stamped 02:00, which lies
    outside the range, is written to the last window.  The rows of the table
    in the half-open window from 00:00 are the row of 00:00 alone. *)
Theorem boundary_row_in_two_windows :
  exists signals w',
    SonicData.prepare_data Scenario.no_write_error Scenario.half_hourly
      Scenario.two_hours 1 "P" Scenario.empty_world = Ok (signals, w') /\
    files w' !! "P\Split\2020-01-01_00-00.csv"%string =
      Some (csv_of ["Ux"]
              [(Scenario.new_year, [Some 1%Q]);
               (Scenario.new_year + Scenario.minutes 30, [Some 2%Q])]) /\
    files w' !! "P\Split\2020-01-01_00-30.csv"%string =
      Some (csv_of ["Ux"]
              [(Scenario.new_year + Scenario.minutes 30, [Some 2%Q]);
               (Scenario.new_year + Scenario.minutes 60, [Some 3%Q])]) /\
    files w' !! "P\Split\2020-01-01_01-30.csv"%string =
      Some (csv_of ["Ux"]
              [(Scenario.new_year + Scenario.minutes 90, [Some 4%Q]);
               (Scenario.new_year + Scenario.minutes 120, [Some 5%Q])]) /\
    List.filter (in_window Scenario.new_year (Scenario.minutes 30))
                (rows Scenario.half_hourly)
      = [(Scenario.new_year, [Some 1%Q])] /\
    ~ In (Scenario.new_year + Scenario.minutes 120) (values Scenario.two_hours).
Proof.
  eexists _, _. split; [vm_compute; reflexivity|].
  repeat split; try (vm_compute; reflexivity).
  vm_compute. intuition discriminate.
Qed.


(** ** Averaging *)

Section Averaging.

Lemma group_mean_fold cells s n :
  let acc := fold_left (fun acc c =>
                          match c with
                          | Some v => (Qplus (fst acc) v, S (snd acc))
                          | None => acc
                          end) cells (s, n) in
  Qeq (fst acc) (s + total (numbers cells)) /\
  snd acc = (n + List.length (numbers cells))%nat.
Proof.
  revert s n. induction cells as [|c cells IH]; intros s n.
  - cbn. split; [ring | lia].
  - cbn [fold_left]. destruct c as [v|].
    + destruct (IH (s + v)%Q (S n)) as [H1 H2]. cbv zeta in *.
      cbn [fst snd]. split.
      * rewrite H1. cbn [numbers flat_map app total fold_right].
        fold (numbers cells). fold (total (numbers cells)). ring.
      * rewrite H2. cbn [numbers flat_map app List.length].
        fold (numbers cells). lia.
    + apply IH.
Qed.

(** [group_mean] is the arithmetic mean of the numbers of the group. *)
Lemma group_mean_spec cells :
  cell_eq (group_mean cells) (arith_mean (numbers cells)).
Proof.
  unfold group_mean.
  pose proof (group_mean_fold cells 0%Q 0%nat) as H. cbv zeta in H.
  match type of H with
  | context [fold_left ?g cells ?a] =>
      destruct (fold_left g cells a) as [sumx nobs]
  end.
  cbn [fst snd] in H. destruct H as [Hs Hn].
  destruct (numbers cells) as [|v vs] eqn:E.
  - cbn in Hn. subst nobs. exact I.
  - cbn [List.length Nat.add] in Hn. subst nobs. cbn [arith_mean cell_eq].
    rewrite Hs. cbn [List.length]. now rewrite Qplus_0_l.
Qed.

Lemma group_mean_single (c : Cell) : cell_eq (group_mean [c]) c.
Proof.
  destruct c as [v|]; [|exact I].
  unfold group_mean. cbn [fold_left fst snd cell_eq].
  change (inject_Z (Z.of_nat 1)) with 1%Q. field.
Qed.

Lemma minimum_spec x l :
  minimum x l <= x /\ List.Forall (fun y => minimum x l <= y) l.
Proof.
  unfold minimum. revert x. induction l as [|y l IH]; intros x.
  - cbn. split; [lia | constructor].
  - cbn [fold_left]. destruct (IH (Z.min x y)) as [H1 H2].
    split; [lia|]. constructor; [lia | exact H2].
Qed.

Lemma maximum_spec x l :
  x <= maximum x l /\ List.Forall (fun y => y <= maximum x l) l.
Proof.
  unfold maximum. revert x. induction l as [|y l IH]; intros x.
  - cbn. split; [lia | constructor].
  - cbn [fold_left]. destruct (IH (Z.max x y)) as [H1 H2].
    split; [lia|]. constructor; [lia | exact H2].
Qed.

Lemma take_arange k s f n : take k (arange s f n) = arange s f (Nat.min k n).
Proof.
  unfold arange. rewrite firstn_map. f_equal.
  apply take_seq.
Qed.

Lemma in_arange b s f k :
  In b (arange s f k) <-> exists i, (i < k)%nat /\ b = s + Z.of_nat i * f.
Proof.
  unfold arange. rewrite in_map_iff. split.
  - intros (i & <- & Hi). apply in_seq in Hi. exists i. split; [lia|reflexivity].
  - intros (i & Hi & ->). exists i. split; [reflexivity|]. apply in_seq. lia.
Qed.

(** The bins of [resample] lie end to end from the first label on, each
    [f] long, and between them they hold every stamp of the index. *)
Lemma bin_labels_cover ix f :
  0 < f ->
  exists b0 k,
    bin_labels ix f = arange b0 f k /\
    forall t, In t ix -> b0 <= t < b0 + Z.of_nat k * f.
Proof.
  intros Hf. destruct ix as [|t0 tl].
  - exists 0, 0%nat. split; [reflexivity|]. intros t [].
  - unfold bin_labels.
    set (first := minimum t0 tl). set (last := maximum t0 tl).
    set (sd := first / NS_PER_DAY * NS_PER_DAY).
    destruct (minimum_spec t0 tl) as [Hmin0 Hmin].
    destruct (maximum_spec t0 tl) as [Hmax0 Hmax].
    fold first in Hmin0, Hmin. fold last in Hmax0, Hmax.
    pose proof (Z.div_mod (first - sd) f ltac:(lia)) as E1.
    pose proof (Z.mod_pos_bound (first - sd) f Hf) as B1.
    pose proof (Z.div_mod (last - sd) f ltac:(lia)) as E2.
    pose proof (Z.mod_pos_bound (last - sd) f Hf) as B2.
    set (A := (last - sd) / f) in *. set (B := (first - sd) / f) in *.
    set (fresult := first - (first - sd) mod f).
    set (lresult := last - (last - sd) mod f + f).
    assert (Hfr : fresult = sd + f * B) by (subst fresult; lia).
    assert (Hlr : lresult = sd + f * A + f) by (subst lresult; lia).
    assert (Hfl : first <= last) by lia.
    assert (HAB : B <= A) by (subst A B; apply Z.div_le_mono; lia).
    assert (Hq : (lresult - fresult) / f = A - B + 1).
    { replace (lresult - fresult) with ((A - B + 1) * f) by lia.
      apply Z.div_mul. lia. }
    unfold date_range.
    replace (lresult <? fresult) with false by (symmetry; apply Z.ltb_ge; nia).
    rewrite Hq. cbn [andb].
    replace (values _) with (arange fresult f (Z.to_nat (A - B + 1 + 1)))
      by (cbn [values]; now destruct (List.last _ None)).
    rewrite arange_length, take_arange.
    exists fresult, (Z.to_nat (A - B + 1)). split; [f_equal; lia|].
    intros t Ht.
    assert (first <= t <= last).
    { destruct Ht as [<-|Ht]; [lia|].
      split; [eapply (proj1 (List.Forall_forall _ _) Hmin), Ht
             | eapply (proj1 (List.Forall_forall _ _) Hmax), Ht]. }
    rewrite Z2Nat.id by lia. nia.
Qed.

(** The group of a bin of the shifted table is the bucket of the table. *)
Lemma shifted_group j shift b f (rs : list Row) :
  List.map (fun r => nth j (snd r) None)
    (List.filter (fun r => (b <=? fst r) && (fst r <? b + f))
       (List.map (fun r => (fst r + shift, snd r)) rs))
  = channel j (bucket shift b f rs).
Proof.
  unfold channel, bucket, in_window.
  rewrite filter_map_swap, List.map_map. reflexivity.
Qed.

End Averaging.

Section AmmoniaFacts.

Lemma prepare_data_file write_error data data_range prep_path w :
  write_error (averaged_path prep_path) = None ->
  exists w',
    AmmoniaData.prepare_data write_error data data_range prep_path w = Ok w' /\
    files w' !! averaged_path prep_path =
    Some (mkCsv (index_name data :: columns data)
            (List.map (averaged_record data (freq data_range))
               (bin_labels (List.map (fun t => t + shift8) (index data))
                           (freq data_range)))).
Proof.
  intros Hw. unfold AmmoniaData.prepare_data, to_csv.
  fold (averaged_path prep_path). rewrite Hw. cbn [bind].
  eexists. split; [reflexivity|].
  cbn [print files]. rewrite lookup_insert_eq. f_equal.
  unfold resample_mean, tshift, index. cbn [index_name columns rows]. f_equal.
  match goal with
  | |- List.map _ (List.map _ (bin_labels ?ix _)) = _ =>
      replace ix with (List.map (fun t => t + shift8) (List.map fst (rows data)))
        by (rewrite !List.map_map; reflexivity)
  end.
  rewrite List.map_map. apply List.map_ext. intros b. cbn [fst snd].
  unfold averaged_record. f_equal. apply List.map_ext. intros j.
  f_equal. apply shifted_group.
Qed.

Lemma averaged_record_nth data f b j :
  (j < List.length (columns data))%nat ->
  nth j (snd (averaged_record data f b)) None =
  group_mean (channel j (bucket shift8 b f (rows data))).
Proof.
  intros Hj. unfold averaged_record. cbn [snd].
  apply nth_lookup_Some with (d := None) (x := group_mean _).
  rewrite list_lookup_fmap, lookup_seq_lt by exact Hj. reflexivity.
Qed.

End AmmoniaFacts.






(** * Further properties *)

(** ** More on the partitioner *)

Section PartitionerEdges.
Import SonicData.

Lemma fractions_loop_zero data f it : fractions_loop data f 0 it = [].
Proof. apply fractions_loop_nil. reflexivity. Qed.

(** The number of turns of the loop. *)
Lemma fractions_loop_turns data f n it :
  (0 < n)%nat ->
  Z.of_nat (List.length (fractions_loop data f n it)) =
  ceil_div (Z.of_nat (List.length it)) (Z.of_nat n).
Proof.
  intros Hn.
  apply (fractions_loop_induction data f n
    (fun it evs => Z.of_nat (List.length evs) =
                   ceil_div (Z.of_nat (List.length it)) (Z.of_nat n))).
  - intros it' E. destruct n; [lia|]. destruct it'; [|discriminate].
    cbn [List.length]. unfold ceil_div.
    symmetry. apply Z.div_small. lia.
  - intros it' first tl E IH. cbn [List.length]. rewrite Nat2Z.inj_succ, IH.
    pose proof (length_take it' n) as Lt. rewrite E in Lt.
    cbn [List.length] in Lt. rewrite length_drop. unfold ceil_div.
    destruct (Nat.le_gt_cases (List.length it') n) as [Hle|Hgt].
    + replace (List.length it' - n)%nat with 0%nat by lia.
      rewrite (Z.div_small (Z.of_nat 0 + _ - 1)) by lia.
      apply Z.div_unique with (r := Z.of_nat (List.length it') - 1); lia.
    + rewrite Nat2Z.inj_sub by lia.
      replace (Z.of_nat (List.length it') + Z.of_nat n - 1)
        with (Z.of_nat (List.length it') - Z.of_nat n + Z.of_nat n - 1
              + 1 * Z.of_nat n) by lia.
      rewrite Z.div_add by lia. lia.
Qed.

End PartitionerEdges.

(** X1.  Without a positive worker count [_make_data_fractions] yields
    nothing: with [cores = 0] the [divmod] raises [ZeroDivisionError]; with
    a negative count [islice] raises [ValueError] when the range has at
    least [8 * |cores|] stamps, and for a shorter range the fraction size is
    0 and the generator ends at once. *)
Theorem partitioner_without_workers data data_range cores :
  cores <= 0 ->
  SonicData._make_data_fractions data data_range cores =
  if cores =? 0 then Raise ZeroDivisionError
  else if - (cores * 8) <=? Z.of_nat (List.length (values data_range))
       then Raise ValueError
       else Ok [].
Proof.
  intros Hc. unfold SonicData._make_data_fractions, SonicData.fraction_size.
  destruct (Z.eqb_spec cores 0) as [->|Hne]; [reflexivity|].
  destruct (Z.eqb_spec (cores * 8) 0) as [H0|_]; [lia|].
  set (L := Z.of_nat (List.length (values data_range))).
  set (d := cores * 8). assert (Hd : d < 0) by (subst d; lia).
  assert (HL : 0 <= L) by (subst L; lia).
  pose proof (Z.div_mod L d ltac:(lia)) as E.
  pose proof (Z.mod_neg_bound L d Hd) as B.
  destruct (Z.leb_spec (- d) L) as [Hlong|Hshort].
  - assert (Hq : L / d <= -1) by nia.
    destruct (Z.eqb_spec (L mod d) 0) as [Hr|Hr].
    + destruct (Z.ltb_spec (L / d) 0); [reflexivity|lia].
    + assert (L / d <= -2) by nia.
      destruct (Z.ltb_spec (L / d + 1) 0); [reflexivity|lia].
  - assert (Hsize : (if L mod d =? 0 then L / d else L / d + 1) = 0).
    { destruct (Z.eqb_spec (L mod d) 0) as [Hr|Hr]; nia. }
    rewrite Hsize. cbn [Z.ltb Z.compare Z.to_nat].
    now rewrite fractions_loop_zero.
Qed.

Lemma partitioner_without_workers_witness :
  SonicData._make_data_fractions Scenario.half_hourly Scenario.two_hours (-1) =
  if -1 =? 0 then Raise ZeroDivisionError
  else if - (-1 * 8) <=? Z.of_nat (List.length (values Scenario.two_hours))
       then Raise ValueError
       else Ok [].
Proof.
  apply (partitioner_without_workers Scenario.half_hourly Scenario.two_hours (-1)).
  lia.
Defined.





(** ** What the splitter leaves on disk *)

Section SplitterFiles.
Import SonicData.

Variable write_error : string -> option exn.

Lemma write_all_lookup entries m p :
  write_all entries m !! p =
  match last_write entries p with
  | Some c => Some c
  | None => m !! p
  end.
Proof.
  induction entries as [|e entries IH] using rev_ind; [reflexivity|].
  unfold write_all, last_write in *. rewrite !fold_left_app. cbn [fold_left].
  destruct (String.eqb_spec (fst e) p) as [->|Hne].
  - now rewrite lookup_insert_eq.
  - rewrite lookup_insert_ne by exact Hne. exact IH.
Qed.

(** Writing the same files a second time changes nothing. *)
Lemma write_all_twice entries m :
  write_all entries (write_all entries m) = write_all entries m.
Proof.
  apply map_eq. intros p. rewrite !write_all_lookup.
  now destruct (last_write entries p).
Qed.

Lemma split_window_files data_fraction f split_path t w :
  files (split_window write_error data_fraction f split_path t w) =
  match window_write write_error data_fraction f split_path t with
  | Some e => <[fst e := snd e]> (files w)
  | None => files w
  end.
Proof.
  unfold split_window, write_window, window_write, to_csv.
  destruct (getitem_slice data_fraction t (t + f)) as [part|e]; cbn [bind];
    [|reflexivity].
  now destruct (write_error (file_path split_path t)).
Qed.

Lemma split_windows_write_all data_fraction f split_path starts w :
  files (fold_left (fun w t => split_window write_error data_fraction f
                                 split_path t w) starts w)
  = write_all (window_writes write_error data_fraction f split_path starts)
      (files w).
Proof.
  revert w. induction starts as [|t starts IH]; intros w; [reflexivity|].
  cbn [fold_left]. rewrite IH, split_window_files.
  unfold window_writes. cbn [flat_map]. unfold write_all.
  rewrite fold_left_app.
  now destruct (window_write write_error data_fraction f split_path t).
Qed.

Lemma split_files data_fraction data_range_fraction split_path w :
  files (snd (_split_data_fraction write_error data_fraction
                data_range_fraction split_path w))
  = write_all (window_writes write_error data_fraction
                 (freq data_range_fraction) split_path
                 (values data_range_fraction)) (files w).
Proof.
  unfold _split_data_fraction. rewrite split_loop_fold, drop_0. cbn [snd].
  apply split_windows_write_all.
Qed.

Lemma last_write_none entries p :
  List.Forall (fun e => fst e <> p) entries -> last_write entries p = None.
Proof.
  induction entries as [|e entries IH] using rev_ind; intros H; [reflexivity|].
  apply Forall_app in H as [H1 H2]. apply Forall_cons in H2 as [He _].
  unfold last_write in *. rewrite fold_left_app. cbn [fold_left].
  destruct (String.eqb_spec (fst e) p); [contradiction|]. now apply IH.
Qed.

Lemma window_write_error data_fraction f split_path t :
  window_write write_error data_fraction f split_path t = None <->
  window_error write_error data_fraction f split_path t <> None.
Proof.
  unfold window_write, window_error.
  destruct (getitem_slice data_fraction t (t + f)); [|now split].
  destruct (write_error (file_path split_path t)); now split.
Qed.

Lemma window_write_path data_fraction f split_path t e :
  window_write write_error data_fraction f split_path t = Some e ->
  fst e = file_path split_path t.
Proof.
  unfold window_write.
  destruct (getitem_slice data_fraction t (t + f)); [|discriminate].
  destruct (write_error (file_path split_path t)); [discriminate|].
  now intros [= <-].
Qed.

End SplitterFiles.

(** X3.  [_split_data_fraction] leaves a path as it was unless a window of
    the fraction with that file name is written without error: it touches no
    other file, and a window that fails leaves an older file of its name in
    place. *)
Theorem split_leaves_other_files (write_error : string -> option exn)
    data_fraction data_range_fraction split_path w p :
  (forall t, In t (values data_range_fraction) ->
             SonicData.file_path split_path t = p ->
             window_error write_error data_fraction (freq data_range_fraction)
               split_path t <> None) ->
  files (snd (SonicData._split_data_fraction write_error data_fraction
                data_range_fraction split_path w)) !! p
  = files w !! p.
Proof.
  intros H. rewrite split_files, write_all_lookup, last_write_none; [reflexivity|].
  apply List.Forall_forall. intros e He.
  apply in_flat_map in He as (t & Ht & He).
  destruct (window_write write_error data_fraction (freq data_range_fraction)
              split_path t) as [e'|] eqn:E; [|destruct He].
  destruct He as [<-|[]]. rewrite (window_write_path _ _ _ _ _ _ E).
  intros Hp. pose proof (H t Ht Hp) as Hn.
  apply window_write_error in Hn. congruence.
Qed.

Lemma split_leaves_other_files_witness :
  files (snd (SonicData._split_data_fraction Scenario.no_write_error
                Scenario.half_hourly Scenario.two_hours "P"
                Scenario.empty_world)) !! "Q\x.csv"%string
  = files Scenario.empty_world !! "Q\x.csv"%string.
Proof.
  apply (split_leaves_other_files Scenario.no_write_error Scenario.half_hourly
           Scenario.two_hours "P" Scenario.empty_world).
  intros t Ht Hp. exfalso. vm_compute in Ht.
  destruct Ht as [<-|[<-|[<-|[<-|[]]]]]; vm_compute in Hp; discriminate.
Defined.

(** X4.  Running [_split_data_fraction] a second time on the same fraction
    leaves the files as the first run left them, whatever fails: the split
    is idempotent on the files. *)
Theorem split_twice_same_files (write_error : string -> option exn)
    data_fraction data_range_fraction split_path w :
  let run := fun w => snd (SonicData._split_data_fraction write_error
                             data_fraction data_range_fraction split_path w) in
  files (run (run w)) = files (run w).
Proof.
  cbv beta zeta. rewrite !split_files. apply write_all_twice.
Qed.

(** ** The whole anemometer pipeline *)

Section SonicPipeline.
Import SonicData.

Variable write_error : string -> option exn.

Lemma run_bounds f first tl :
  0 < f -> evenly_spaced f (first :: tl) = true ->
  List.Forall (fun t => first <= t <= List.last tl first) (first :: tl).
Proof.
  intros Hf He. pose proof (evenly_spaced_is_arange _ _ _ He) as E.
  assert (Hl : List.last tl first = first + Z.of_nat (List.length tl) * f).
  { rewrite arange_S in E. injection E as E. rewrite E at 1.
    rewrite last_arange. rewrite E at 2. rewrite arange_length.
    destruct (List.length tl); lia. }
  rewrite Hl. apply List.Forall_forall. intros t Ht. rewrite E in Ht.
  apply in_arange in Ht as (i & Hi & ->). nia.
Qed.

Lemma dispatch_yielded data_fraction data_range_fraction events split_path w :
  dispatch write_error
    (Yielded data_fraction data_range_fraction :: events) split_path w =
  let w1 := fold_left (fun w t => split_window write_error data_fraction
                                    (freq data_range_fraction) split_path t w)
                      (values data_range_fraction) w in
  (Ok true :: fst (dispatch write_error events split_path w1),
   snd (dispatch write_error events split_path w1)).
Proof.
  cbn [dispatch]. unfold _split_data_fraction.
  rewrite split_loop_fold, drop_0. cbv zeta.
  now destruct (dispatch write_error events split_path _).
Qed.

Lemma dispatch_printed e events split_path w :
  dispatch write_error (Printed e :: events) split_path w =
  dispatch write_error events split_path (print (ExnLine e) w).
Proof. reflexivity. Qed.

(** The windows of a fraction of a table in time order write the rows that
    the whole table has in their closed intervals. *)
Lemma window_write_sorted data f split_path first last t :
  is_monotonic_increasing (index data) = true ->
  first <= t <= last ->
  write_error (file_path split_path t) = None ->
  window_write write_error
    (mkFrame (index_name data) (columns data)
       (List.filter (between first (last + f)) (rows data)))
    f split_path t
  = Some (window_file split_path data f t).
Proof.
  intros Hs Ht Hw. unfold window_write.
  rewrite getitem_slice_sorted
    by (unfold index; cbn [rows]; now apply monotonic_filter).
  rewrite Hw. cbn [columns rows]. unfold window_file. do 3 f_equal.
  apply filter_narrow. intros r. unfold between.
  intros [H1 H2]%andb_prop. apply Z.leb_le in H1, H2.
  apply andb_true_intro. split; apply Z.leb_le; lia.
Qed.

Lemma window_writes_sorted data f split_path first last starts :
  is_monotonic_increasing (index data) = true ->
  List.Forall (fun t => first <= t <= last) starts ->
  (forall t, In t starts -> write_error (file_path split_path t) = None) ->
  window_writes write_error
    (mkFrame (index_name data) (columns data)
       (List.filter (between first (last + f)) (rows data)))
    f split_path starts
  = List.map (window_file split_path data f) starts.
Proof.
  intros Hs Hb Hw. induction Hb as [|t starts Ht _ IH]; [reflexivity|].
  unfold window_writes in *. cbn [flat_map List.map].
  rewrite (window_write_sorted _ _ _ _ _ _ Hs Ht) by (apply Hw; now left).
  cbn [app]. f_equal. apply IH. intros t' Ht'. apply Hw. now right.
Qed.

Lemma window_log_quiet data_fraction f split_path starts :
  List.Forall (fun t => window_write write_error data_fraction f split_path t
                        <> None) starts ->
  window_log write_error data_fraction f split_path starts = [].
Proof.
  induction 1 as [|t starts Ht _ IH]; [reflexivity|].
  unfold window_log in *. cbn [flat_map]. rewrite IH, app_nil_r.
  destruct (window_error write_error data_fraction f split_path t) eqn:E;
    [|reflexivity].
  exfalso. apply Ht. apply window_write_error. congruence.
Qed.

Lemma write_all_app e1 e2 m :
  write_all (e1 ++ e2) m = write_all e2 (write_all e1 m).
Proof. unfold write_all. apply fold_left_app. Qed.

(** Dispatching the fractions of a table in time order writes the window
    files of the stamps consumed, in order, and prints nothing. *)
Lemma dispatch_sorted data f n split_path it :
  0 < f -> (0 < n)%nat -> is_monotonic_increasing (index data) = true ->
  evenly_spaced f it = true ->
  (forall t, In t it -> write_error (file_path split_path t) = None) ->
  forall w,
    let out := dispatch write_error (fractions_loop data f n it) split_path w in
    List.Forall (fun s => s = Ok true) (fst out) /\
    stdout (snd out) = stdout w /\
    files (snd out) =
      write_all (List.map (window_file split_path data f) it) (files w).
Proof.
  intros Hf Hn Hs.
  apply (fractions_loop_induction data f n
    (fun it evs =>
       evenly_spaced f it = true ->
       (forall t, In t it -> write_error (file_path split_path t) = None) ->
       forall w,
         let out := dispatch write_error evs split_path w in
         List.Forall (fun s => s = Ok true) (fst out) /\
         stdout (snd out) = stdout w /\
         files (snd out) =
           write_all (List.map (window_file split_path data f) it) (files w))).
  - intros it' E _ _ w. cbn. split; [constructor|]. split; [reflexivity|].
    destruct n as [|n]; [lia|]. destruct it'; [reflexivity|discriminate].
  - intros it' first tl E IH He Hw w.
    assert (Hrun : evenly_spaced f (first :: tl) = true)
      by (rewrite <- E; now apply evenly_spaced_take).
    assert (Hin : forall t, In t (first :: tl) -> In t it').
    { intros t Ht. rewrite <- (take_drop n it'), E.
      apply in_or_app. now left. }
    assert (Hin' : forall t, In t (drop n it') -> In t it').
    { intros t Ht. rewrite <- (take_drop n it').
      apply in_or_app. now right. }
    unfold fraction_event_of.
    rewrite getitem_slice_sorted by exact Hs.
    rewrite date_range_of_run by assumption.
    rewrite dispatch_yielded. cbv zeta. cbn [values freq fst snd].
    match goal with
    | |- context [dispatch write_error _ split_path ?w1] => set (w1' := w1)
    end.
    destruct (IH (evenly_spaced_drop _ n _ He)
                 (fun t Ht => Hw t (Hin' t Ht)) w1') as (IH1 & IH2 & IH3).
    cbv zeta in *.
    assert (Hwrites :
      window_writes write_error
        (mkFrame (index_name data) (columns data)
           (List.filter (between first (List.last tl first + f)) (rows data)))
        f split_path (first :: tl)
      = List.map (window_file split_path data f) (first :: tl)).
    { apply window_writes_sorted; [exact Hs | now apply (run_bounds f) |].
      intros t Ht. apply Hw, Hin, Ht. }
    split; [constructor; [reflexivity|exact IH1]|]. split.
    + rewrite IH2. subst w1'. rewrite split_windows_stdout.
      rewrite window_log_quiet; [apply app_nil_r|].
      apply List.Forall_forall. intros t Ht.
      rewrite (window_write_sorted _ _ _ first (List.last tl first));
        [discriminate | exact Hs | | apply Hw, Hin, Ht].
      exact (proj1 (List.Forall_forall _ _) (run_bounds f first tl Hf Hrun) t Ht).
    + rewrite IH3. subst w1'. rewrite split_windows_write_all, Hwrites.
      rewrite <- write_all_app, <- List.map_app. do 2 f_equal.
      rewrite <- E. apply take_drop.
Qed.
(** Dispatching touches no path outside the window files of the stamps
    consumed, whatever the table and whatever fails. *)
Lemma dispatch_frame data f n split_path it p :
  0 < f -> evenly_spaced f it = true ->
  (forall t, In t it -> file_path split_path t <> p) ->
  forall w,
    files (snd (dispatch write_error (fractions_loop data f n it) split_path w))
      !! p = files w !! p.
Proof.
  intros Hf.
  apply (fractions_loop_induction data f n
    (fun it evs =>
       evenly_spaced f it = true ->
       (forall t, In t it -> file_path split_path t <> p) ->
       forall w,
         files (snd (dispatch write_error evs split_path w)) !! p
         = files w !! p)).
  - reflexivity.
  - intros it' first tl E IH He Hp w.
    assert (Hrun : evenly_spaced f (first :: tl) = true)
      by (rewrite <- E; now apply evenly_spaced_take).
    assert (Hin : forall t, In t (first :: tl) -> In t it').
    { intros t Ht. rewrite <- (take_drop n it'), E.
      apply in_or_app. now left. }
    assert (Hin' : forall t, In t (drop n it') -> In t it').
    { intros t Ht. rewrite <- (take_drop n it').
      apply in_or_app. now right. }
    specialize (IH (evenly_spaced_drop _ n _ He) (fun t Ht => Hp t (Hin' t Ht))).
    unfold fraction_event_of.
    destruct (getitem_slice data first (List.last tl first + f)) as [d|e].
    + rewrite date_range_of_run by assumption.
      rewrite dispatch_yielded. cbv zeta. cbn [values freq fst snd].
      rewrite IH, split_windows_write_all, write_all_lookup.
      rewrite last_write_none; [reflexivity|].
      apply List.Forall_forall. intros e He'.
      apply in_flat_map in He' as (t & Ht & He').
      destruct (window_write write_error d f split_path t) as [e'|] eqn:Ew;
        [|destruct He'].
      destruct He' as [<-|[]].
      rewrite (window_write_path _ _ _ _ _ _ Ew). apply Hp, Hin, Ht.
    + rewrite dispatch_printed. now rewrite IH.
Qed.

End SonicPipeline.







(** ** When the merge fails *)

Section PoolFailures.

Context {A B : Type} (func : A -> result B).

Lemma failure_sticks xs completion m e :
  Pool.failure m = Some e ->
  Pool.failure (fold_left (worker_returns func xs) completion m) = Some e.
Proof.
  revert m. induction completion as [|i rest IH]; intros m Hm; [exact Hm|].
  cbn [fold_left]. apply IH. unfold worker_returns.
  destruct (xs !! i); [|exact Hm]. unfold Pool._set. now rewrite Hm.
Qed.

Lemma map_async_failure xs completion m :
  Pool.failure m = None ->
  Pool.failure (fold_left (worker_returns func xs) completion m) =
  first_failure func xs completion.
Proof.
  revert m. induction completion as [|i rest IH]; intros m Hm; [exact Hm|].
  cbn [fold_left first_failure]. unfold worker_returns at 2.
  destruct (xs !! i) as [x|]; [|now apply IH].
  unfold Pool._set. rewrite Hm. destruct (func x) as [b|e].
  - now apply IH.
  - now apply failure_sticks.
Qed.

Lemma first_failure_origin xs completion e :
  first_failure func xs completion = Some e ->
  exists x, In x xs /\ func x = Raise e.
Proof.
  induction completion as [|i rest IH]; [discriminate|].
  cbn [first_failure]. destruct (xs !! i) as [x|] eqn:Ex; [|exact IH].
  destruct (func x) as [b|e'] eqn:Ef; [exact IH|].
  intros [= <-]. exists x. split; [|exact Ef].
  eapply list_elem_of_In, list_elem_of_lookup_2, Ex.
Qed.

Lemma first_failure_none xs completion :
  first_failure func xs completion = None ->
  forall i x, In i completion -> xs !! i = Some x -> exists b, func x = Ok b.
Proof.
  induction completion as [|j rest IH]; intros H i x Hi Hx; [destruct Hi|].
  cbn [first_failure] in H. destruct (xs !! j) as [y|] eqn:Ey.
  - destruct (func y) as [b|e] eqn:Ef; [|discriminate].
    destruct Hi as [->|Hi]; [|now apply (IH H i x)].
    rewrite Hx in Ey. injection Ey as ->. now exists b.
  - destruct Hi as [->|Hi]; [congruence|now apply (IH H i x)].
Qed.

Lemma map_async_raises xs completion e :
  first_failure func xs completion = Some e ->
  Pool.get (Pool.map_async func xs completion) = Some (Raise e).
Proof.
  intros H. unfold Pool.get, Pool.map_async.
  change (fun m i => match xs !! i with
                     | Some x => Pool._set i (func x) m
                     | None => m
                     end) with (worker_returns func xs).
  now rewrite map_async_failure, H.
Qed.

Lemma all_succeed xs :
  (forall x, In x xs -> exists b, func x = Ok b) ->
  exists bs, Forall2 (fun x b => func x = Ok b) xs bs.
Proof.
  induction xs as [|x xs IH]; intros H; [exists []; constructor|].
  destruct (H x (or_introl eq_refl)) as [b Hb].
  destruct IH as [bs Hbs]; [intros y Hy; apply H; now right|].
  exists (b :: bs). now constructor.
Qed.

End PoolFailures.

(** X7.  The merge is all or nothing.  With the workers returning every
    task, [_merge_data] produces a table exactly when the file list is not
    empty and every file parses.  On an empty list [pd.concat] raises
    [ValueError]; and when a file raises, the merge raises the error of a
    file that raised, so one unreadable file aborts the whole merge. *)
Theorem merge_all_or_nothing (Format : Type)
    (read_csv : string -> Format -> result Parsed)
    (data_files : list (RawData.DataFile Format)) (completion : list nat) :
  Permutation completion (seq 0 (List.length data_files)) ->
  let read := RawData._read_data_file Format read_csv in
  let merged := RawData._merge_data Format read_csv data_files completion in
  ((exists data, merged = Some (Ok data)) <->
   data_files <> [] /\ forall f, In f data_files -> exists d, read f = Ok d) /\
  (data_files = [] -> merged = Some (Raise ValueError)) /\
  ((exists f e, In f data_files /\ read f = Raise e) ->
   exists f e, In f data_files /\ read f = Raise e /\ merged = Some (Raise e)).
Proof.
  intros Hperm. cbv zeta. unfold RawData._merge_data.
  set (read := RawData._read_data_file Format read_csv).
  destruct (first_failure read data_files completion) as [e|] eqn:Ef.
  - (* a task raised *)
    rewrite (map_async_raises read _ _ _ Ef). cbn [option_map bind].
    destruct (first_failure_origin read _ _ _ Ef) as (f & Hf & He).
    split; [|split].
    + split.
      * intros [data H]. discriminate H.
      * intros [_ H]. destruct (H f Hf) as [d Hd]. congruence.
    + intros ->. destruct Hf.
    + intros _. now exists f, e.
  - (* every task returned a value *)
    assert (Hall : forall f, In f data_files -> exists d, read f = Ok d).
    { intros f Hf. apply list_elem_of_In, list_elem_of_lookup_1 in Hf as [i Hi].
      apply (first_failure_none read _ _ Ef i f); [|exact Hi].
      apply list_elem_of_In. rewrite Hperm. apply elem_of_seq.
      apply lookup_lt_Some in Hi. lia. }
    destruct (all_succeed read data_files Hall) as [frames Hframes].
    rewrite (map_async_get read _ _ _ Hframes Hperm). cbn [option_map bind].
    split; [|split].
    + split.
      * intros [data H]. split; [|exact Hall].
        intros ->. apply Forall2_nil_inv_l in Hframes. subst frames.
        discriminate H.
      * intros [Hne _]. unfold concat. destruct frames as [|df0 frames].
        -- apply Forall2_nil_inv_r in Hframes. congruence.
        -- eexists. reflexivity.
    + intros ->. apply Forall2_nil_inv_l in Hframes. now subst frames.
    + intros (f & e & Hf & He). destruct (Hall f Hf) as [d Hd]. congruence.
Qed.

Lemma merge_all_or_nothing_witness :
  let read := RawData._read_data_file unit Scenario.raw_directory in
  let files := Scenario.raw_files ++ [RawData.mkDataFile unit "third.dat" tt] in
  let merged := RawData._merge_data unit Scenario.raw_directory files [2; 0; 1]%nat in
  ((exists data, merged = Some (Ok data)) <->
   files <> [] /\ forall f, In f files -> exists d, read f = Ok d) /\
  (files = [] -> merged = Some (Raise ValueError)) /\
  ((exists f e, In f files /\ read f = Raise e) ->
   exists f e, In f files /\ read f = Raise e /\ merged = Some (Raise e)).
Proof.
  apply (merge_all_or_nothing unit Scenario.raw_directory
           (Scenario.raw_files ++ [RawData.mkDataFile unit "third.dat" tt])
           [2; 0; 1]%nat).
  cbn. symmetry. change [0; 1; 2]%nat with ([0; 1] ++ [2])%nat.
  change [2; 0; 1]%nat with ([2] ++ [0; 1])%nat. apply Permutation_app_comm.
Defined.



(** ** The range of a project *)

Section ProjectFacts.

Lemma removelast_arange s f n : removelast (arange s f n) = arange s f (n - 1).
Proof.
  rewrite removelast_firstn_len, arange_length, take_arange.
  f_equal. lia.
Qed.

Lemma last_some_arange s f n :
  List.last (List.map Some (arange s f n)) None =
  match n with
  | O => None
  | S k => Some (s + Z.of_nat k * f)
  end.
Proof.
  revert s. induction n as [|n IH]; intros s; [reflexivity|].
  rewrite arange_S. cbn [List.map List.last].
  specialize (IH (s + f)). destruct n as [|n].
  - cbn. f_equal. lia.
  - rewrite arange_S in *. cbn [List.map] in *. rewrite IH. f_equal. lia.
Qed.

(** The stamps of [pd.date_range(start, end, freq, closed='left')]: the
    grid from [start] in steps of [f], up to [end_] and without it. *)
Lemma date_range_left_spec start end_ f t :
  0 < f ->
  In t (values (date_range start end_ f true)) <->
  exists k : nat, t = start + Z.of_nat k * f /\ t < end_.
Proof.
  intros Hf. unfold date_range.
  destruct (Z.ltb_spec end_ start) as [Hlt|Hge].
  - cbn. split; [intros []|]. intros (k & -> & H). nia.
  - set (q := (end_ - start) / f).
    pose proof (Z.div_mod (end_ - start) f ltac:(lia)) as E. fold q in E.
    pose proof (Z.mod_pos_bound (end_ - start) f Hf) as B.
    assert (Hq : 0 <= q) by (subst q; apply Z.div_pos; lia).
    replace (Z.to_nat (q + 1)) with (S (Z.to_nat q)) by lia.
    rewrite last_some_arange. cbn [andb].
    destruct (Z.eqb_spec (start + Z.of_nat (Z.to_nat q) * f) end_) as [Hon|Hoff];
      cbn [values].
    + rewrite removelast_arange. replace (S (Z.to_nat q) - 1)%nat
        with (Z.to_nat q) by lia.
      rewrite in_arange. split.
      * intros (k & Hk & ->). exists k. split; [reflexivity|]. nia.
      * intros (k & -> & Hk). exists k. split; [|reflexivity]. nia.
    + rewrite in_arange. split.
      * intros (k & Hk & ->). exists k. split; [reflexivity|]. nia.
      * intros (k & -> & Hk). exists k. split; [|reflexivity]. nia.
Qed.

End ProjectFacts.






(** ** File names of stamps with a fractional second *)

Section FractionalNames.
Import SonicData.

Lemma append_inj_r a a' b b' :
  String.length b = String.length b' ->
  a +:+ b = a' +:+ b' -> a = a' /\ b = b'.
Proof.
  intros Hl H. apply append_inj; [|exact H].
  apply (f_equal String.length) in H. rewrite !append_length in H. lia.
Qed.

Lemma zfill_6_3 n :
  Py.zfill 6 n = Py.zfill 3 (n / 1000) +:+ Py.zfill 3 n.
Proof.
  cbn [Py.zfill]. rewrite !Z.div_div by lia. cbn [Z.mul Pos.mul].
  rewrite !append_assoc. reflexivity.
Qed.

(** A stamp with a fractional second gets a name with seconds and
    milliseconds. *)
Lemma part_name_millisecond t :
  Py.microsecond (time t) <> 0 ->
  part_name t =
  minute_name t +:+ "-" +:+ Py.zfill 2 (Py.second (time t)) +:+ "." +:+
  Py.zfill 3 (Py.microsecond (time t) / 1000).
Proof.
  intros Hus. unfold part_name, minute_name, Py.str_date, Py.str_time.
  destruct (Z.eqb_spec (Py.microsecond (time t)) 0) as [E|_]; [contradiction|].
  rewrite zfill_6_3.
  rewrite !replace_append, !zfill_replace.
  change (Py.replace ":" "-" ":") with "-"%string.
  change (Py.replace ":" "-" ".") with "."%string.
  set (H := Py.zfill 2 (Py.hour (time t))).
  set (M := Py.zfill 2 (Py.minute (time t))).
  set (S := Py.zfill 2 (Py.second (time t))).
  set (ms := Py.zfill 3 (Py.microsecond (time t) / 1000)).
  set (us := Py.zfill 3 (Py.microsecond (time t))).
  replace (H +:+ "-" +:+ M +:+ "-" +:+ S +:+ "." +:+ ms +:+ us)
    with ((H +:+ "-" +:+ M +:+ "-" +:+ S +:+ "." +:+ ms) +:+ us)
    by (now rewrite !append_assoc).
  rewrite slice_to_neg_append by (subst us; apply zfill_length).
  now rewrite !append_assoc.
Qed.

Lemma millisecond_of_fields t :
  t / 1000000 =
  (t / NS_PER_MINUTE) * 60000 + Py.second (time t) * 1000
  + Py.microsecond (time t) / 1000.
Proof.
  unfold time. cbn [Py.second Py.microsecond]. unfold_ticks.
  Z.div_mod_to_equations. lia.
Qed.

Lemma fields_of_millisecond t1 t2 :
  t1 / 1000000 = t2 / 1000000 ->
  t1 / NS_PER_MINUTE = t2 / NS_PER_MINUTE /\
  Py.second (time t1) = Py.second (time t2) /\
  Py.microsecond (time t1) / 1000 = Py.microsecond (time t2) / 1000.
Proof.
  intros H. unfold time. cbn [Py.second Py.microsecond].
  revert H. unfold_ticks. intros H.
  repeat split; Z.div_mod_to_equations; lia.
Qed.

End FractionalNames.

(** X10.  The name of a window file, for every start within the bounds of a
    [Timestamp].  A start with a non-zero microsecond field gets the name
    [YYYY-MM-DD_HH-MM-SS.mmm.csv], with its second and millisecond.  Two
    windows are written to the same path exactly when their starts lie in
    the same minute and either both have a zero microsecond field or
    neither has and the starts lie in the same millisecond. *)
Theorem window_names_collide split_path t1 t2 :
  TS_MIN <= t1 <= TS_MAX -> TS_MIN <= t2 <= TS_MAX ->
  (Py.microsecond (time t1) <> 0 ->
   SonicData.file_path split_path t1 =
     split_path +:+ "\" +:+ minute_name t1 +:+ "-" +:+
     Py.zfill 2 (Py.second (time t1)) +:+ "." +:+
     Py.zfill 3 (Py.microsecond (time t1) / 1000) +:+ ".csv") /\
  (SonicData.file_path split_path t1 = SonicData.file_path split_path t2 <->
   t1 / NS_PER_MINUTE = t2 / NS_PER_MINUTE /\
   (Py.microsecond (time t1) = 0 /\ Py.microsecond (time t2) = 0 \/
    Py.microsecond (time t1) <> 0 /\ Py.microsecond (time t2) <> 0 /\
    t1 / 1000000 = t2 / 1000000)).
Proof.
  intros B1 B2. unfold SonicData.file_path. split.
  - intros U1. rewrite part_name_millisecond by exact U1.
    now rewrite !append_assoc.
  - destruct (time_fields t1) as (_ & _ & s1 & u1).
    destruct (time_fields t2) as (_ & _ & s2 & u2).
    split.
    + intros H. apply (inj (String.app split_path)) in H.
      apply (inj (String.app "\")) in H.
      apply append_inj_r in H as [H _]; [|reflexivity].
      destruct (Z.eq_dec (Py.microsecond (time t1)) 0) as [U1|U1],
               (Z.eq_dec (Py.microsecond (time t2)) 0) as [U2|U2].
      * rewrite !part_name_minute in H by assumption.
        split; [now apply minute_name_inj | now left].
      * exfalso. rewrite part_name_minute in H by assumption.
        rewrite part_name_millisecond in H by assumption.
        apply (f_equal String.length) in H.
        rewrite !append_length, !minute_name_length, !zfill_length in H.
        cbn [String.length] in H. lia.
      * exfalso. rewrite (part_name_minute t2) in H by assumption.
        rewrite part_name_millisecond in H by assumption.
        apply (f_equal String.length) in H.
        rewrite !append_length, !minute_name_length, !zfill_length in H.
        cbn [String.length] in H. lia.
      * rewrite !part_name_millisecond in H by assumption.
        apply append_inj in H as [Hm H]; [|now rewrite !minute_name_length].
        apply append_inj in H as [_ H]; [|reflexivity].
        apply append_inj in H as [Hs H]; [|now rewrite !zfill_length].
        apply append_inj in H as [_ Hms]; [|reflexivity].
        apply zfill_inj in Hs; [|change (10 ^ Z.of_nat 2) with 100; lia ..].
        apply zfill_inj in Hms;
          [|change (10 ^ Z.of_nat 3) with 1000; Z.div_mod_to_equations; lia ..].
        pose proof (minute_name_inj _ _ B1 B2 Hm) as Hmin.
        split; [exact Hmin|]. right. split; [exact U1|]. split; [exact U2|].
        rewrite (millisecond_of_fields t1), (millisecond_of_fields t2).
        now rewrite Hmin, Hs, Hms.
    + intros [Hmin [[U1 U2]|(U1 & U2 & Hms)]].
      * rewrite !part_name_minute by assumption.
        now rewrite (minute_name_same _ _ Hmin).
      * rewrite !part_name_millisecond by assumption.
        destruct (fields_of_millisecond _ _ Hms) as (_ & Hs & Hu).
        now rewrite (minute_name_same _ _ Hmin), Hs, Hu.
Qed.

Lemma window_names_collide_witness :
  SonicData.file_path "P" (Scenario.new_year + 1500000) =
    "P\2020-01-01_00-00-00.001.csv"%string /\
  SonicData.file_path "P" (Scenario.new_year + 1500000) =
    SonicData.file_path "P" (Scenario.new_year + 1900000).
Proof.
  destruct (window_names_collide "P" (Scenario.new_year + 1500000)
              (Scenario.new_year + 1900000)) as [Hname Hsame];
    [vm_compute; split; discriminate ..|].
  split.
  - rewrite Hname by (vm_compute; discriminate). vm_compute. reflexivity.
  - apply Hsame. split; [vm_compute; reflexivity|]. right.
    split; [vm_compute; discriminate|].
    split; [vm_compute; discriminate | vm_compute; reflexivity].
Defined.

(** ** The two pipelines write different files *)

Section PipelinesApart.
Import SonicData.

Lemma zfill_last w n :
  Py.zfill (S w) n = Py.zfill w (n / 10) +:+ String (Py.digit (n mod 10)) "".
Proof. reflexivity. Qed.

Lemma digit_not_d n : Py.digit (n mod 10) <> "d"%char.
Proof.
  intros H. pose proof (Z.mod_pos_bound n 10 ltac:(lia)) as B.
  unfold Py.digit in H. apply (f_equal nat_of_ascii) in H.
  rewrite nat_ascii_embedding in H by lia.
  change (nat_of_ascii "d") with 100%nat in H. lia.
Qed.

(** The name of a window ends with a digit. *)
Lemma part_name_ends_with_digit t :
  exists p n, part_name t = p +:+ String (Py.digit (n mod 10)) "".
Proof.
  destruct (Z.eq_dec (Py.microsecond (time t)) 0) as [U|U].
  - rewrite part_name_minute by exact U. unfold minute_name.
    rewrite (zfill_last 1 (Py.minute (time t))).
    eexists _, _. rewrite <- !append_assoc. reflexivity.
  - unfold part_name, Py.str_time.
    destruct (Z.eqb_spec (Py.microsecond (time t)) 0) as [E|_]; [contradiction|].
    set (us := Py.microsecond (time t)).
    assert (E6 : Py.zfill 6 us =
                 (Py.zfill 2 (us / 10 / 10 / 10 / 10) +:+
                  String (Py.digit (us / 10 / 10 / 10 mod 10)) "") +:+
                 Py.zfill 3 us).
    { cbn [Py.zfill]. rewrite !append_assoc. reflexivity. }
    rewrite E6, !replace_append.
    rewrite <- !append_assoc.
    rewrite slice_to_neg_append
      by (rewrite zfill_replace; apply zfill_length).
    cbn [Py.replace]. rewrite digit_not_colon.
    eexists _, _. rewrite <- !append_assoc. reflexivity.
Qed.

Lemma window_file_not_averaged split_path prep_path t :
  file_path split_path t <> averaged_path prep_path.
Proof.
  destruct (part_name_ends_with_digit t) as (p & n & E).
  unfold file_path, averaged_path. rewrite E. intros H.
  change "\data_averaged.csv"%string
    with ("\data_average" +:+ String "d" ".csv")%string in H.
  rewrite <- !append_assoc in H.
  rewrite (append_assoc _ (String (Py.digit (n mod 10)) "") ".csv") in H.
  change (String (Py.digit (n mod 10)) "" +:+ ".csv")
    with (String (Py.digit (n mod 10)) ".csv") in H.
  apply append_inj_r in H as [_ H]; [|reflexivity].
  injection H as H. exact (digit_not_d n H).
Qed.

End PipelinesApart.



(** ** The first and the last record of the averaged file *)

Section AveragedSpan.

Lemma minimum_in x l : In (minimum x l) (x :: l).
Proof.
  unfold minimum. revert x. induction l as [|y l IH]; intros x; [now left|].
  cbn [fold_left]. destruct (IH (Z.min x y)) as [H|H].
  - rewrite <- H. destruct (Z.min_spec x y) as [[_ E]|[_ E]]; rewrite E.
    + now left.
    + right. now left.
  - right. right. exact H.
Qed.

Lemma maximum_in x l : In (maximum x l) (x :: l).
Proof.
  unfold maximum. revert x. induction l as [|y l IH]; intros x; [now left|].
  cbn [fold_left]. destruct (IH (Z.max x y)) as [H|H].
  - rewrite <- H. destruct (Z.max_spec x y) as [[_ E]|[_ E]]; rewrite E.
    + right. now left.
    + now left.
  - right. right. exact H.
Qed.

(** The bins of [resample] for an index that is not empty: they start with
    the bin of the least stamp and end with the bin of the greatest, and
    their edges are counted from midnight of the least stamp's day. *)
Lemma bin_labels_span t0 tl f :
  0 < f ->
  let lo := minimum t0 tl in
  let hi := maximum t0 tl in
  exists (n : Z) (k : nat),
    0 <= n /\
    let b0 := lo / NS_PER_DAY * NS_PER_DAY + n * f in
    bin_labels (t0 :: tl) f = arange b0 f (S k) /\
    b0 <= lo < b0 + f /\
    b0 + Z.of_nat k * f <= hi < b0 + Z.of_nat k * f + f.
Proof.
  intros Hf. cbv zeta. unfold bin_labels.
  set (first := minimum t0 tl). set (last := maximum t0 tl).
  set (sd := first / NS_PER_DAY * NS_PER_DAY).
  destruct (minimum_spec t0 tl) as [Hmin0 _].
  destruct (maximum_spec t0 tl) as [Hmax0 _].
  fold first in Hmin0. fold last in Hmax0.
  assert (Hsd : 0 <= first - sd).
  { subst sd. unfold NS_PER_DAY, NS_PER_HOUR, NS_PER_MINUTE, NS_PER_SECOND.
    Z.div_mod_to_equations. lia. }
  pose proof (Z.div_mod (first - sd) f ltac:(lia)) as E1.
  pose proof (Z.mod_pos_bound (first - sd) f Hf) as B1.
  pose proof (Z.div_mod (last - sd) f ltac:(lia)) as E2.
  pose proof (Z.mod_pos_bound (last - sd) f Hf) as B2.
  set (A := (last - sd) / f) in *. set (B := (first - sd) / f) in *.
  set (fresult := first - (first - sd) mod f).
  set (lresult := last - (last - sd) mod f + f).
  assert (Hfr : fresult = sd + f * B) by (subst fresult; lia).
  assert (Hlr : lresult = sd + f * A + f) by (subst lresult; lia).
  assert (Hfl : first <= last) by lia.
  assert (HAB : B <= A) by (subst A B; apply Z.div_le_mono; lia).
  assert (HB : 0 <= B) by (subst B; apply Z.div_pos; lia).
  assert (Hq : (lresult - fresult) / f = A - B + 1).
  { replace (lresult - fresult) with ((A - B + 1) * f) by lia.
    apply Z.div_mul. lia. }
  unfold date_range.
  replace (lresult <? fresult) with false by (symmetry; apply Z.ltb_ge; nia).
  rewrite Hq. cbn [andb].
  replace (values _) with (arange fresult f (Z.to_nat (A - B + 1 + 1)))
    by (cbn [values]; now destruct (List.last _ None)).
  rewrite arange_length, take_arange.
  exists B, (Z.to_nat (A - B)). split; [exact HB|].
  replace (sd + B * f) with fresult by lia.
  split; [f_equal; lia|]. rewrite Z2Nat.id by lia. nia.
Qed.

End AveragedSpan.



(** ** The order of the rows does not matter to the averages *)

Section RowOrder.

Lemma Qplus_swap (s u v : Q) : Qplus (Qplus s u) v = Qplus (Qplus s v) u.
Proof.
  destruct s as [sn sd], u as [un ud], v as [vn vd].
  unfold Qplus. cbn [Qnum Qden]. f_equal.
  - rewrite !Pos2Z.inj_mul. ring.
  - rewrite <- !Pos.mul_assoc. f_equal. apply Pos.mul_comm.
Qed.

Lemma group_fold_perm (cells cells' : list Cell) :
  Permutation cells cells' ->
  forall acc : Q * nat,
    fold_left (fun acc c =>
                 match c with
                 | Some v => (Qplus (fst acc) v, S (snd acc))
                 | None => acc
                 end) cells acc
    = fold_left (fun acc c =>
                   match c with
                   | Some v => (Qplus (fst acc) v, S (snd acc))
                   | None => acc
                   end) cells' acc.
Proof.
  induction 1 as [|c l l' _ IH|c d l|l l' l'' _ IH1 _ IH2]; intros acc.
  - reflexivity.
  - cbn [fold_left]. apply IH.
  - cbn [fold_left]. f_equal. destruct c as [u|], d as [v|]; try reflexivity.
    cbn [fst snd]. f_equal. apply Qplus_swap.
  - now rewrite IH1.
Qed.

Lemma group_mean_perm cells cells' :
  Permutation cells cells' -> group_mean cells = group_mean cells'.
Proof.
  intros H. unfold group_mean. now rewrite (group_fold_perm _ _ H).
Qed.

Lemma filter_perm {A} (p : A -> bool) l l' :
  Permutation l l' -> Permutation (List.filter p l) (List.filter p l').
Proof.
  induction 1 as [|x l l' _ IH|x y l|l l' l'' _ IH1 _ IH2].
  - constructor.
  - cbn [List.filter]. destruct (p x); [now constructor | exact IH].
  - cbn [List.filter]. destruct (p x), (p y); try reflexivity.
    apply perm_swap.
  - now transitivity (List.filter p l').
Qed.

Lemma minimum_perm x l y l' :
  Permutation (x :: l) (y :: l') -> minimum x l = minimum y l'.
Proof.
  intros H.
  destruct (minimum_spec x l) as [A1 A2]. destruct (minimum_spec y l') as [B1 B2].
  pose proof (minimum_in x l) as I1. pose proof (minimum_in y l') as I2.
  assert (L1 : forall z, In z (x :: l) -> minimum x l <= z).
  { intros z [<-|Hz]; [exact A1|].
    exact (proj1 (List.Forall_forall _ _) A2 z Hz). }
  assert (L2 : forall z, In z (y :: l') -> minimum y l' <= z).
  { intros z [<-|Hz]; [exact B1|].
    exact (proj1 (List.Forall_forall _ _) B2 z Hz). }
  apply Z.le_antisymm.
  - apply L1. apply (Permutation_in _ (Permutation_sym H)), I2.
  - apply L2. apply (Permutation_in _ H), I1.
Qed.

Lemma maximum_perm x l y l' :
  Permutation (x :: l) (y :: l') -> maximum x l = maximum y l'.
Proof.
  intros H.
  destruct (maximum_spec x l) as [A1 A2]. destruct (maximum_spec y l') as [B1 B2].
  pose proof (maximum_in x l) as I1. pose proof (maximum_in y l') as I2.
  assert (L1 : forall z, In z (x :: l) -> z <= maximum x l).
  { intros z [<-|Hz]; [exact A1|].
    exact (proj1 (List.Forall_forall _ _) A2 z Hz). }
  assert (L2 : forall z, In z (y :: l') -> z <= maximum y l').
  { intros z [<-|Hz]; [exact B1|].
    exact (proj1 (List.Forall_forall _ _) B2 z Hz). }
  apply Z.le_antisymm.
  - apply L2. apply (Permutation_in _ H), I1.
  - apply L1. apply (Permutation_in _ (Permutation_sym H)), I2.
Qed.

Lemma bin_labels_perm ix ix' f :
  Permutation ix ix' -> bin_labels ix f = bin_labels ix' f.
Proof.
  intros H. destruct ix as [|x l], ix' as [|y l'].
  - reflexivity.
  - apply Permutation_nil in H. discriminate.
  - apply Permutation_sym, Permutation_nil in H. discriminate.
  - unfold bin_labels.
    now rewrite (minimum_perm _ _ _ _ H), (maximum_perm _ _ _ _ H).
Qed.

Lemma resample_mean_perm df df' f :
  index_name df = index_name df' -> columns df = columns df' ->
  Permutation (rows df) (rows df') ->
  resample_mean df f = resample_mean df' f.
Proof.
  intros Hn Hc Hr. unfold resample_mean. rewrite Hn, Hc. f_equal.
  rewrite (bin_labels_perm (index df) (index df') f)
    by (unfold index; now apply Permutation_map).
  apply List.map_ext. intros b. f_equal. apply List.map_ext. intros j.
  apply group_mean_perm. apply Permutation_map. now apply filter_perm.
Qed.

End RowOrder.


